(** * OpenMediaVault controller: a shallow embedding of [omv_controller.py]

    The development follows the Python module
    [custom_components/openmediavault/omv_controller.py]:

    - Python values, exceptions and the handful of built-ins the controller
      uses ([int], [round], [str.split], [%d] formatting, true division);
    - the response normaliser [parse_api] (its module is not part of the
      sources at hand, it is modelled from the specification);
    - the controller object as a record, its methods as computations in a
      state-and-exception monad that also records a trace of the externally
      visible events;
    - the properties of the update cycles and of the derived fields. *)

From Stdlib Require Import ZArith List String Ascii Bool Lia.
From Stdlib Require Import DecimalString.
From Stdlib Require Import Floats.SpecFloat.
Import ListNotations.

Local Open Scope string_scope.
Local Open Scope Z_scope.

Set Warnings "-register-all".

(** ** Python values *)

(** A JSON-like Python value.  A [str] is a sequence of code points below
    256, an [int] is unbounded, a [float] is a binary64 number in the
    representation of [SpecFloat], a [dict] has string keys and keeps its
    insertion order. *)
Inductive value : Type :=
| VNone
| VBool (b : bool)
| VInt (n : Z)
| VFloat (x : spec_float)
| VStr (s : string)
| VList (l : list value)
| VDict (d : list (string * value)).

(** The exceptions that the modelled code can raise.  [ApiError] stands for
    whatever the transport client raises. *)
Inductive exn : Type :=
| KeyError (k : string)
| IndexError
| ValueError
| TypeError
| AttributeError
| ZeroDivisionError
| OverflowError
| RuntimeError
| ApiError (msg : string).

Inductive outcome (A : Type) : Type :=
| Ok (a : A)
| Raise (e : exn).
Arguments Ok {A} a.
Arguments Raise {A} e.

Definition obind {A B} (o : outcome A) (k : A -> outcome B) : outcome B :=
  match o with
  | Ok a => k a
  | Raise e => Raise e
  end.

(** ** Dictionaries with insertion order *)

Section Dict.
Context {V : Type}.

Definition dict := list (string * V).

Fixpoint dict_get (k : string) (d : dict) : option V :=
  match d with
  | [] => None
  | (k', v) :: d' => if String.eqb k k' then Some v else dict_get k d'
  end.

(** [d[k] = v]: an existing key keeps its position, a new key goes last. *)
Fixpoint dict_set (k : string) (v : V) (d : dict) : dict :=
  match d with
  | [] => [(k, v)]
  | (k', v') :: d' =>
      if String.eqb k k' then (k', v) :: d' else (k', v') :: dict_set k v d'
  end.

Definition dict_mem (k : string) (d : dict) : bool :=
  match dict_get k d with
  | Some _ => true
  | None => false
  end.

Definition dict_keys (d : dict) : list string := map fst d.

(** [d[k]], raising [KeyError]. *)
Definition dict_item (k : string) (d : dict) : outcome V :=
  match dict_get k d with
  | Some v => Ok v
  | None => Raise (KeyError k)
  end.
End Dict.
Arguments dict V : clear implicits.

(** A record maps field names to values; a keyed collection maps row keys to
    records. *)
Definition record := dict value.
Definition collection := dict record.

(** ** Strings *)

(** [s.split(sep)] for a one-character separator. *)
Fixpoint split_on (sep : ascii) (s : string) : list string :=
  match s with
  | EmptyString => [EmptyString]
  | String c r =>
      if Ascii.eqb c sep then EmptyString :: split_on sep r
      else match split_on sep r with
           | [] => [String c EmptyString]
           | w :: ws => String c w :: ws
           end
  end.

(** [s.startswith(p)]. *)
Definition startswith (p s : string) : bool := String.prefix p s.

(** [c in s] for a single character [c]. *)
Fixpoint contains_char (c : ascii) (s : string) : bool :=
  match s with
  | EmptyString => false
  | String c' r => Ascii.eqb c c' || contains_char c r
  end.

(** The characters that [int] drops around a literal, among the code points
    below 256: the ASCII white space, and the two code points above 127 that
    are white space (next line and no-break space). *)
Definition is_space (c : ascii) : bool :=
  let n := nat_of_ascii c in
  ((9 <=? n)%nat && (n <=? 13)%nat) || (n =? 32)%nat
  || (n =? 133)%nat || (n =? 160)%nat.

Fixpoint lstrip (s : string) : string :=
  match s with
  | EmptyString => EmptyString
  | String c r => if is_space c then lstrip r else s
  end.

Fixpoint rstrip (s : string) : string :=
  match s with
  | EmptyString => EmptyString
  | String c r =>
      match rstrip r with
      | EmptyString => if is_space c then EmptyString else String c EmptyString
      | r' => String c r'
      end
  end.

Definition strip (s : string) : string := rstrip (lstrip s).

Definition digit_of (c : ascii) : option Z :=
  let n := nat_of_ascii c in
  if ((48 <=? n)%nat && (n <=? 57)%nat) then Some (Z.of_nat n - 48) else None.

(** The digits of a decimal literal: digits, with single underscores allowed
    between two digits. *)
Fixpoint digits_value (acc : Z) (after_digit : bool) (s : string) : option Z :=
  match s with
  | EmptyString => if after_digit then Some acc else None
  | String c r =>
      match digit_of c with
      | Some d => digits_value (10 * acc + d) true r
      | None =>
          if Ascii.eqb c "_" && after_digit then digits_value acc false r
          else None
      end
  end.

(** [int(s)] for a string, base ten: surrounding white space is dropped, one
    sign is allowed. *)
Definition int_of_string (s : string) : option Z :=
  match strip s with
  | String "-" r => option_map Z.opp (digits_value 0 false r)
  | String "+" r => digits_value 0 false r
  | r => digits_value 0 false r
  end.

(** [str(n)] for an integer. *)
Definition string_of_Z (n : Z) : string := NilZero.string_of_int (Z.to_int n).

Fixpoint zeros (k : nat) : string :=
  match k with
  | O => EmptyString
  | S k' => String "0" (zeros k')
  end.

(** ["%02d" % n]. *)
Definition format_02d (n : Z) : string :=
  let digits := string_of_Z (Z.abs n) in
  if n <? 0 then "-" ++ zeros (1 - String.length digits) ++ digits
  else zeros (2 - String.length digits) ++ digits.

(** ** Floats *)

Definition prec : Z := 53.
Definition emax : Z := 1024.

(** The binary64 number nearest to an integer. *)
Definition float_of_Z (n : Z) : spec_float := binary_normalize prec emax n 0 false.

(** [float(n)] as the arithmetic operators compute it: too large an integer
    raises. *)
Definition py_float_of_int (n : Z) : outcome spec_float :=
  match float_of_Z n with
  | S754_infinity _ => Raise OverflowError
  | x => Ok x
  end.

(** An integer as an exact, not normalised, operand of a division. *)
Definition exact_of_Z (n : Z) : spec_float :=
  match n with
  | Z0 => S754_zero false
  | Zpos p => S754_finite false p 0
  | Zneg p => S754_finite true p 0
  end.

(** [a / b] on integers: the correctly rounded quotient. *)
Definition py_truediv (a b : Z) : outcome spec_float :=
  if b =? 0 then Raise ZeroDivisionError
  else if a =? 0 then Ok (S754_zero (b <? 0))
  else match SFdiv prec emax (exact_of_Z a) (exact_of_Z b) with
       | S754_infinity _ => Raise OverflowError
       | x => Ok x
       end.

(** [x * n] for a float [x] and an integer [n]. *)
Definition py_mul_float_int (x : spec_float) (n : Z) : outcome spec_float :=
  obind (py_float_of_int n) (fun y => Ok (SFmul prec emax x y)).

(** [int(x)] for a float: truncation towards zero. *)
Definition py_int_of_float (x : spec_float) : outcome Z :=
  match x with
  | S754_zero _ => Ok 0
  | S754_infinity _ => Raise OverflowError
  | S754_nan => Raise ValueError
  | S754_finite s m e =>
      let a := match e with
               | Zneg p => Z.shiftr (Zpos m) (Zpos p)
               | _ => Z.shiftl (Zpos m) e
               end in
      Ok (if s then - a else a)
  end.

(** The integer nearest to [num / den], ties to even ([0 < den]). *)
Definition round_half_even (num den : Z) : Z :=
  let q := num / den in
  let r := num mod den in
  match 2 * r ?= den with
  | Lt => q
  | Gt => q + 1
  | Eq => if Z.even q then q else q + 1
  end.

(** [round(x, 1)] for a float: the exact value is rounded to one decimal
    place, ties to even, and the decimal is read back as a float. *)
Definition py_round1_float (x : spec_float) : spec_float :=
  match x with
  | S754_finite s m e =>
      let tenths := match e with
                    | Zneg p => round_half_even (10 * Zpos m) (Z.shiftl 1 (Zpos p))
                    | _ => Z.shiftl (10 * Zpos m) e
                    end in
      match tenths with
      | Zpos t => SFdiv prec emax (S754_finite s t 0) (S754_finite false 10 0)
      | _ => S754_zero s
      end
  | _ => x
  end.

(** ** Built-ins on values *)

(** [int(v)]. *)
Definition py_int (v : value) : outcome Z :=
  match v with
  | VInt n => Ok n
  | VBool b => Ok (if b then 1 else 0)
  | VFloat x => py_int_of_float x
  | VStr s => match int_of_string s with
              | Some n => Ok n
              | None => Raise ValueError
              end
  | VNone | VList _ | VDict _ => Raise TypeError
  end.

(** [round(v, 1)]: integers and booleans give an [int], floats a [float]. *)
Definition py_round1 (v : value) : outcome value :=
  match v with
  | VInt n => Ok (VInt n)
  | VBool b => Ok (VInt (if b then 1 else 0))
  | VFloat x => Ok (VFloat (py_round1_float x))
  | VNone | VStr _ | VList _ | VDict _ => Raise TypeError
  end.

(** [v.split(sep)]: only a [str] has the method. *)
Definition py_split (sep : ascii) (v : value) : outcome (list string) :=
  match v with
  | VStr s => Ok (split_on sep s)
  | _ => Raise AttributeError
  end.

(** [v.startswith(p)]. *)
Definition py_startswith (p : string) (v : value) : outcome bool :=
  match v with
  | VStr s => Ok (startswith p s)
  | _ => Raise AttributeError
  end.

(** [l[i]] on a list of words. *)
Definition py_index (l : list string) (i : nat) : outcome string :=
  match nth_error l i with
  | Some w => Ok w
  | None => Raise IndexError
  end.

(** ["%d" % v]: a float is truncated, anything that is not a number is a
    [TypeError]. *)
Definition py_percent_d (v : value) : outcome Z :=
  match v with
  | VInt n => Ok n
  | VBool b => Ok (if b then 1 else 0)
  | VFloat x => py_int_of_float x
  | _ => Raise TypeError
  end.

(** Truth value of a Python object. *)
Definition truthy (v : value) : bool :=
  match v with
  | VNone => false
  | VBool b => b
  | VInt n => negb (n =? 0)
  | VFloat (S754_zero _) => false
  | VFloat _ => true
  | VStr s => negb (String.eqb s EmptyString)
  | VList l => match l with [] => false | _ => true end
  | VDict d => match d with [] => false | _ => true end
  end.

(** ** The response normaliser *)

(** [str(v)] of a string, an integer, a boolean or [None] is fixed here; the
    text of a float or of a container is left to the Python runtime. *)
Class Repr : Type := repr_other : value -> string.

Definition py_str `{Repr} (v : value) : string :=
  match v with
  | VStr s => s
  | VInt n => string_of_Z n
  | VBool b => if b then "True" else "False"
  | VNone => "None"
  | _ => repr_other v
  end.

Inductive field_type : Type := TImplicit | TBool.

(** One entry of [vals] or [ensure_vals]: [{"name": .., "type": ..,
    "default": ..}]. *)
Record field_spec : Type := mkField {
  f_name : string;
  f_type : field_type;
  f_default : option value
}.

(** One entry of [skip]: [{"name": .., "value": ..}]; the forbidden values of
    the controller are strings. *)
Record skip_rule : Type := mkSkip {
  s_name : string;
  s_value : string
}.

Module Normalizer.

(** Modelled from the spec: [parse_api] lives in [apiparser.py], which is not
    among the sources.  Section 4.1 of the specification gives its contract
    ([normalize(existingData, rawSource, fieldSpecs, ensureSpecs, keyField?,
    skipRules?)]); the definitions below follow its six steps.  A raw value
    counts as empty when it is [None], the empty string, [[]] or [{}]. *)
Definition is_empty (v : value) : bool :=
  match v with
  | VNone => true
  | VStr s => String.eqb s EmptyString
  | VList l => match l with [] => true | _ => false end
  | VDict d => match d with [] => true | _ => false end
  | _ => false
  end.

(** Modelled from the spec: the boolean coercion of step 3 of [parse_api]
    (missing [apiparser.py]): the strings ["false"] and ["0"] are false, every
    other value has its Python truth value (so ["true"], ["1"] and non-zero
    numbers are true). *)
Definition coerce_bool (v : value) : bool :=
  match v with
  | VStr s => if String.eqb s "false" || String.eqb s "0" then false else truthy v
  | _ => truthy v
  end.

(** Modelled from the spec: step 1 of [parse_api] (missing [apiparser.py]),
    the raw source as a sequence of rows: a mapping is one row, a sequence
    contributes its mappings, anything else has no row.  Unwrapping a
    ["data"] envelope is left to the caller, as [get_service] does. *)
Definition rows_of (source : value) : list record :=
  match source with
  | VDict d => [d]
  | VList l => flat_map (fun v => match v with VDict d => [d] | _ => [] end) l
  | _ => []
  end.

(** Modelled from the spec: step 2 of [parse_api] (missing [apiparser.py]), a
    row is discarded when one of the skip rules names a field of the row that
    equals the forbidden value. *)
Definition skipped (skip : list skip_rule) (row : record) : bool :=
  existsb (fun r => match dict_get (s_name r) row with
                    | Some (VStr s) => String.eqb s (s_value r)
                    | _ => false
                    end) skip.

(** Modelled from the spec: step 3 of [parse_api] (missing [apiparser.py]),
    the value of one declared field: the default when the row lacks the
    field, the coerced boolean for a ["bool"] field, otherwise the raw value,
    or the default again when the raw value is empty.  [None] means that the
    field stays out of the record. *)
Definition field_value (row : record) (f : field_spec) : option value :=
  match dict_get (f_name f) row with
  | None => f_default f
  | Some v =>
      match f_type f with
      | TBool => Some (VBool (coerce_bool v))
      | TImplicit => if is_empty v then f_default f else Some v
      end
  end.

(** Modelled from the spec: step 3 of [parse_api] (missing [apiparser.py]),
    the record built from a row, field by field in the order of [vals]. *)
Fixpoint fill_vals (row : record) (vals : list field_spec) (out : record) : record :=
  match vals with
  | [] => out
  | f :: vals' =>
      fill_vals row vals'
        (match field_value row f with
         | Some v => dict_set (f_name f) v out
         | None => out
         end)
  end.

(** Modelled from the spec: step 5 of [parse_api] (missing [apiparser.py]),
    the ensure fields: a value that the prior record of the same key already
    holds is copied forward; a field that is still missing receives its
    default. *)
Fixpoint fill_ensure_vals (old : option record) (ensure_vals : list field_spec)
    (out : record) : record :=
  match ensure_vals with
  | [] => out
  | e :: rest =>
      fill_ensure_vals old rest
        (match match old with Some o => dict_get (f_name e) o | None => None end with
         | Some v => dict_set (f_name e) v out
         | None =>
             if dict_mem (f_name e) out then out
             else match f_default e with
                  | Some d => dict_set (f_name e) d out
                  | None => out
                  end
         end)
  end.

(** Modelled from the spec: steps 3 and 5 of [parse_api] (missing
    [apiparser.py]) for one surviving row. *)
Definition normalize_row (old : option record) (vals ensure_vals : list field_spec)
    (row : record) : record :=
  fill_ensure_vals old ensure_vals (fill_vals row vals []).

(** Modelled from the spec: [parse_api] without [key] (missing
    [apiparser.py]): an absent or empty source leaves the existing record
    unchanged; otherwise the surviving row becomes the flat record (with
    several rows the last one stands). *)
Definition parse_api_record (data : record) (source : value)
    (vals ensure_vals : list field_spec) (skip : list skip_rule) : record :=
  if truthy source then
    fold_left (fun acc row =>
                 if skipped skip row then acc
                 else normalize_row (Some data) vals ensure_vals row)
              (rows_of source) data
  else data.

Section Keyed.
Context `{Repr}.

(** Modelled from the spec: step 4 of [parse_api] (missing [apiparser.py]),
    the key of a row is the stringified value of the key field; a row
    without that field has no key and is left out. *)
Definition row_key (key : string) (row : record) : option string :=
  option_map py_str (dict_get key row).

(** Modelled from the spec: steps 4 and 6 of [parse_api] (missing
    [apiparser.py]), one row placed into the output collection. *)
Definition place_row (data : collection) (key : string)
    (vals ensure_vals : list field_spec) (skip : list skip_rule)
    (out : collection) (row : record) : collection :=
  if skipped skip row then out
  else match row_key key row with
       | None => out
       | Some uid =>
           dict_set uid (normalize_row (dict_get uid data) vals ensure_vals row) out
       end.

(** Modelled from the spec: [parse_api] with [key] (missing
    [apiparser.py]): the output collection is built from the rows alone, so
    that keys of the existing data that no row produces are gone; an absent
    or empty source gives the empty collection. *)
Definition parse_api_keyed (data : collection) (source : value) (key : string)
    (vals ensure_vals : list field_spec) (skip : list skip_rule) : collection :=
  if truthy source then
    fold_left (place_row data key vals ensure_vals skip) (rows_of source) []
  else [].

(** The keys that the rows of a source produce, in row order. *)
Definition new_keys (source : value) (key : string) (skip : list skip_rule)
    : list string :=
  flat_map (fun row =>
              if skipped skip row then []
              else match row_key key row with
                   | Some uid => [uid]
                   | None => []
                   end)
           (rows_of source).

(** Whether a row survives the skip rules and has the key [uid]. *)
Definition produces (key : string) (skip : list skip_rule) (uid : string)
    (row : record) : bool :=
  negb (skipped skip row)
  && match row_key key row with
     | Some k => String.eqb uid k
     | None => false
     end.

(** The last surviving row of a source that has the given key. *)
Definition last_row (source : value) (key : string) (skip : list skip_rule)
    (uid : string) : option record :=
  find (produces key skip uid) (rev (rows_of source)).
End Keyed.

End Normalizer.
Import Normalizer.

(** ** The controller and its environment *)

(** The five categories of [self.data]. *)
Record snapshot : Type := mkSnapshot {
  hwinfo : record;
  plugin : collection;
  disk : collection;
  fs : collection;
  service : collection
}.

Inductive category : Type := CHwinfo | CPlugin | CDisk | CFs | CService.

(** The methods that a cycle hands to the executor. *)
Inductive fetch : Type := Hwinfo | Plugin | Disk | Fs | Smart | Service.

(** The callbacks that [async_init] registers. *)
Inductive timer_callback : Type := ForceUpdate | ForceHwinfoUpdate.

Record timer : Type := mkTimer {
  t_callback : timer_callback;
  t_seconds : nat
}.

(** What a run does that is visible outside the controller, in order. *)
Inductive event : Type :=
| EReconnected (b : bool)
| ELockAcquired (timeout : nat)
| ELockTimeout (timeout : nat)
| EJob (f : fetch)
| EConnected (b : bool)
| EQuery (service_name method : string) (params : record)
| ESignal (signal : string)
| ELockReleased
| EUnsubscribe (handle : nat).

(** The collaborators of the controller, over a state [W] of the outside
    world: the transport client ([OpenMediaVaultAPI]), the event loop as far
    as the lock is concerned, the clock, and the constant [DOMAIN] of
    [const.py].

    - [api_query service method params] is [self.api.query(..)]: a response
      or an exception, and the world after the call;
    - [api_connected] is [self.api.connected()];
    - [api_has_reconnected] is [self.api.has_reconnected()];
    - [lock_wait timeout] tells whether [asyncio.wait_for(self.lock.acquire(),
      timeout)] obtains the lock ([true]) or times out ([false]);
    - [clock_now] is [datetime.now().replace(microsecond=0)], a naive local
      time counted in seconds;
    - [local_isoformat t] is
      [str(as_local(utc_from_timestamp(datetime.timestamp(t))).isoformat())]
      for the naive local time [t], an [OverflowError] when the date is out
      of range. *)
Class Environment (W : Type) : Type := {
  DOMAIN : string;
  api_query : string -> string -> record -> W -> outcome value * W;
  api_connected : W -> bool;
  api_has_reconnected : W -> bool * W;
  lock_wait : nat -> W -> bool * W;
  clock_now : W -> Z;
  local_isoformat : Z -> outcome string
}.

(** The controller object, together with the part of [hass] it writes to
    (the interval timers), the outside world and the trace of the run.

    - [listeners] holds the unsubscribe callables that the platforms append,
      as handles;
    - [locked] tells whether the run at hand holds [self.lock]; that another
      coroutine holds it shows in the answer of [lock_wait] only;
    - [force_update_callback] and [force_hwinfo_update_callback] hold the
      handles that [async_track_time_interval] returned;
    - [hass_timers] are the interval timers registered with [hass]. *)
Record controller (W : Type) : Type := mkController {
  name : string;
  data : snapshot;
  listeners : list nat;
  locked : bool;
  force_update_callback : option nat;
  force_hwinfo_update_callback : option nat;
  hass_timers : list timer;
  world : W;
  trace : list event
}.
Arguments mkController {W}.
Arguments name {W}.
Arguments data {W}.
Arguments listeners {W}.
Arguments locked {W}.
Arguments force_update_callback {W}.
Arguments force_hwinfo_update_callback {W}.
Arguments hass_timers {W}.
Arguments world {W}.
Arguments trace {W}.

(** [OMVControllerData.__init__]. *)
Definition init {W} (config_name : string) (w : W) : controller W :=
  mkController config_name (mkSnapshot [] [] [] [] []) [] false None None [] w [].

Section Setters.
Context {W : Type}.
Implicit Type st : controller W.

Definition with_data st d :=
  mkController (name st) d (listeners st) (locked st) (force_update_callback st)
    (force_hwinfo_update_callback st) (hass_timers st) (world st) (trace st).
Definition with_listeners st l :=
  mkController (name st) (data st) l (locked st) (force_update_callback st)
    (force_hwinfo_update_callback st) (hass_timers st) (world st) (trace st).
Definition with_locked st b :=
  mkController (name st) (data st) (listeners st) b (force_update_callback st)
    (force_hwinfo_update_callback st) (hass_timers st) (world st) (trace st).
Definition with_force_update_callback st h :=
  mkController (name st) (data st) (listeners st) (locked st) h
    (force_hwinfo_update_callback st) (hass_timers st) (world st) (trace st).
Definition with_force_hwinfo_update_callback st h :=
  mkController (name st) (data st) (listeners st) (locked st)
    (force_update_callback st) h (hass_timers st) (world st) (trace st).
Definition with_hass_timers st t :=
  mkController (name st) (data st) (listeners st) (locked st)
    (force_update_callback st) (force_hwinfo_update_callback st) t (world st)
    (trace st).
Definition with_world st (w : W) :=
  mkController (name st) (data st) (listeners st) (locked st)
    (force_update_callback st) (force_hwinfo_update_callback st)
    (hass_timers st) w (trace st).
Definition with_trace st t :=
  mkController (name st) (data st) (listeners st) (locked st)
    (force_update_callback st) (force_hwinfo_update_callback st)
    (hass_timers st) (world st) t.
End Setters.

Definition with_hwinfo (d : snapshot) (r : record) : snapshot :=
  mkSnapshot r (plugin d) (disk d) (fs d) (service d).
Definition with_plugin (d : snapshot) (c : collection) : snapshot :=
  mkSnapshot (hwinfo d) c (disk d) (fs d) (service d).
Definition with_disk (d : snapshot) (c : collection) : snapshot :=
  mkSnapshot (hwinfo d) (plugin d) c (fs d) (service d).
Definition with_fs (d : snapshot) (c : collection) : snapshot :=
  mkSnapshot (hwinfo d) (plugin d) (disk d) c (service d).
Definition with_service (d : snapshot) (c : collection) : snapshot :=
  mkSnapshot (hwinfo d) (plugin d) (disk d) (fs d) c.

(** ** The monad of the methods

    A method takes the controller and gives back a result or an exception,
    and the controller as the method left it: what was written before an
    exception stays written. *)
Definition M (W A : Type) : Type := controller W -> outcome A * controller W.

Definition ret {W A} (a : A) : M W A := fun st => (Ok a, st).

Definition bind {W A B} (m : M W A) (k : A -> M W B) : M W B :=
  fun st =>
    match m st with
    | (Ok a, st') => k a st'
    | (Raise e, st') => (Raise e, st')
    end.

Declare Scope py_scope.
Delimit Scope py_scope with py.
Notation "x <- m ;; k" := (bind m (fun x => k))
  (at level 61, m at next level, right associativity) : py_scope.
Notation "m ;; k" := (bind m (fun _ => k))
  (at level 61, right associativity) : py_scope.
Local Open Scope py_scope.

(** An expression that may raise. *)
Definition lift {W A} (o : outcome A) : M W A := fun st => (o, st).

Definition gets {W A} (f : controller W -> A) : M W A := fun st => (Ok (f st), st).

Definition modify {W} (f : controller W -> controller W) : M W unit :=
  fun st => (Ok tt, f st).

Definition emit {W} (e : event) : M W unit :=
  modify (fun st => with_trace st (trace st ++ [e])%list).

(** [for x in l: body(x)]. *)
Fixpoint for_each {W A} (l : list A) (body : A -> M W unit) : M W unit :=
  match l with
  | [] => ret tt
  | x :: l' => body x ;; for_each l' body
  end.

(** ** The field tables of the controller *)

Definition fld (n : string) : field_spec := mkField n TImplicit None.
Definition fld_default (n : string) (d : value) : field_spec :=
  mkField n TImplicit (Some d).
Definition fld_bool (n : string) (d : bool) : field_spec :=
  mkField n TBool (Some (VBool d)).

Definition hwinfo_vals : list field_spec :=
  [ fld_default "hostname" (VStr "unknown");
    fld_default "version" (VStr "unknown");
    fld_default "cpuUsage" (VInt 0);
    fld_default "memTotal" (VInt 0);
    fld_default "memUsed" (VInt 0);
    fld_default "uptime" (VStr "0 days 0 hours 0 minutes 0 seconds");
    fld_bool "configDirty" false;
    fld_bool "rebootRequired" false;
    fld_bool "pkgUpdatesAvailable" false ].

Definition hwinfo_ensure_vals : list field_spec :=
  [ fld_default "memUsage" (VInt 0) ].

Definition disk_vals : list field_spec :=
  [ fld "devicename";
    fld "canonicaldevicefile";
    fld_default "size" (VStr "unknown");
    fld_bool "israid" false;
    fld_bool "isroot" false ].

(** The SMART attributes that [get_smart] copies onto a disk. *)
Definition smart_attributes : list string :=
  [ "Raw_Read_Error_Rate"; "Spin_Up_Time"; "Start_Stop_Count";
    "Reallocated_Sector_Ct"; "Seek_Error_Rate"; "Load_Cycle_Count";
    "Temperature_Celsius"; "UDMA_CRC_Error_Count"; "Multi_Zone_Error_Rate" ].

Definition smart_info_names : list string :=
  [ "devicemodel"; "serialnumber"; "firmwareversion"; "sectorsize";
    "rotationrate"; "writecacheis"; "smartsupportis" ].

Definition disk_ensure_vals : list field_spec :=
  map (fun n => fld_default n (VStr "unknown")) (smart_info_names ++ smart_attributes)%list.

Definition smart_info_vals : list field_spec :=
  [ fld_default "devicemodel" (VStr "unknown");
    fld_default "serialnumber" (VStr "unknown");
    fld_default "firmwareversion" (VStr "unknown");
    fld_default "sectorsize" (VStr "unknown");
    fld_default "rotationrate" (VStr "unknown");
    fld_bool "writecacheis" false;
    fld_bool "smartsupportis" false ].

Definition smart_attr_vals : list field_spec :=
  [ fld "attrname";
    fld_default "threshold" (VInt 0);
    fld_default "rawvalue" (VInt 0) ].

Definition fs_vals : list field_spec :=
  [ fld "uuid";
    fld_default "parentdevicefile" (VStr "unknown");
    fld_default "label" (VStr "unknown");
    fld_default "type" (VStr "unknown");
    fld_default "mountpoint" (VStr "unknown");
    fld_default "available" (VStr "unknown");
    fld_default "size" (VStr "unknown");
    fld_default "percentage" (VStr "unknown");
    fld_bool "_readonly" false;
    fld_bool "_used" false ].

Definition fs_skip : list skip_rule :=
  [ mkSkip "type" "swap"; mkSkip "type" "iso9660" ].

Definition service_vals : list field_spec :=
  [ fld "name";
    fld_default "title" (VStr "unknown");
    fld_bool "enabled" false;
    fld_bool "running" false ].

Definition plugin_vals : list field_spec :=
  [ fld "name"; fld_bool "installed" false ].

(** ** The derived uptime *)

(** ["%d days %02d hours %02d minutes %02d seconds" % (day, hour, mins,
    secs)]; the first three arguments are floats. *)
Definition format_uptime (day hour mins : spec_float) (secs : Z) : outcome string :=
  obind (py_percent_d (VFloat day)) (fun d =>
  obind (py_percent_d (VFloat hour)) (fun h =>
  obind (py_percent_d (VFloat mins)) (fun m =>
  Ok (string_of_Z d ++ " days " ++ format_02d h ++ " hours "
      ++ format_02d m ++ " minutes " ++ format_02d secs ++ " seconds")))).

(** Lines 199 to 214 of [get_hwinfo]: the text form of a count of seconds. *)
Definition uptime_text (tmp : value) : outcome string :=
  obind (py_int tmp) (fun n =>
  let pos := Z.abs n in
  obind (py_truediv pos (3600 * 24)) (fun day =>
  let rem := pos mod (3600 * 24) in
  obind (py_truediv rem 3600) (fun hour =>
  let rem := rem mod 3600 in
  obind (py_truediv rem 60) (fun mins =>
  let secs := rem mod 60 in
  obind (format_uptime day hour mins secs) (fun res =>
  obind (py_int tmp) (fun n' =>
  Ok (if n' <? 0 then "-" ++ res else res))))))).

(** Line 198 of [get_hwinfo]: [int(version.split(".")[0])]. *)
Definition major_version (version : value) : outcome Z :=
  obind (py_split "." version) (fun parts =>
  obind (py_index parts 0) (fun first =>
  py_int (VStr first))).

(** Lines 198 to 217 of [get_hwinfo]: the words of the uptime text, by the
    branch that the major version selects. *)
Definition uptime_words (version uptime : value) : outcome (list string) :=
  obind (major_version version) (fun major =>
  if major >? 5 then
    obind (uptime_text uptime) (fun res => Ok (split_on " " res))
  else py_split " " uptime).

(** [int(tmp[i])]. *)
Definition int_at (tmp : list string) (i : nat) : outcome Z :=
  obind (py_index tmp i) (fun w => py_int (VStr w)).

(** Lines 219 to 222 of [get_hwinfo]: the total of the four components. *)
Definition uptime_seconds (tmp : list string) : outcome Z :=
  obind (int_at tmp 0) (fun days =>
  obind (int_at tmp 2) (fun hours =>
  obind (int_at tmp 4) (fun minutes =>
  obind (int_at tmp 6) (fun seconds =>
  Ok (0 + days * 86400 + hours * 3600 + minutes * 60 + seconds))))).

(** Lines 230 to 236 of [get_hwinfo]: the memory usage of a record. *)
Definition mem_usage (hw : record) : outcome value :=
  obind (dict_item "memTotal" hw) (fun total =>
  obind (py_int total) (fun t =>
  obind
    (if t >? 0 then
       obind (dict_item "memUsed" hw) (fun used =>
       obind (py_int used) (fun u =>
       obind (dict_item "memTotal" hw) (fun total' =>
       obind (py_int total') (fun t' =>
       obind (py_truediv u t') (fun q =>
       obind (py_mul_float_int q 100) (fun mem => Ok (VFloat mem)))))))
     else Ok (VInt 0))
    py_round1)).

(** [rawvalue.split(" ")[0]] when the raw value is a string with a space in
    it (lines 348 to 354 of [get_smart]). *)
Definition smart_raw_value (raw : value) : value :=
  match raw with
  | VStr s =>
      if contains_char " " s then
        match split_on " " s with
        | w :: _ => VStr w
        | [] => raw
        end
      else raw
  | _ => raw
  end.


(** ["data" in tmp]. *)
Definition py_contains_data (tmp : value) : outcome bool :=
  match tmp with
  | VDict d => Ok (dict_mem "data" d)
  | VList l => Ok (existsb (fun v => match v with
                                     | VStr s => String.eqb s "data"
                                     | _ => false
                                     end) l)
  | VStr s => Ok (match String.index 0 "data" s with Some _ => true | None => false end)
  | _ => Raise TypeError
  end.

(** [tmp["data"]]. *)
Definition py_item_data (tmp : value) : outcome value :=
  match tmp with
  | VDict d => dict_item "data" d
  | _ => Raise TypeError
  end.

(** ** The methods of [OMVControllerData] *)

Section Methods.
Context {W : Type} `{Environment W} `{Repr}.

(** [self.api.query(service, method, params)]. *)
Definition query (service_name method : string) (params : record) : M W value :=
  fun st =>
    let (r, w) := api_query service_name method params (world st) in
    (r, with_trace (with_world st w)
          (trace st ++ [EQuery service_name method params])%list).

(** [self.api.connected()] (the method [connected] of the controller is
    the same call). *)
Definition connected : M W bool := gets (fun st => api_connected (world st)).

(** [self.api.connected()] as the test between two jobs of a cycle; the
    answer is recorded in the trace. *)
Definition check_connected : M W bool :=
  c <- connected ;; emit (EConnected c) ;; ret c.

(** [self.api.has_reconnected()]. *)
Definition has_reconnected : M W bool :=
  fun st =>
    let (r, w) := api_has_reconnected (world st) in
    (Ok r, with_trace (with_world st w) (trace st ++ [EReconnected r])%list).

(** [signal_update]: [f"{DOMAIN}-update-{self.name}"]. *)
Definition signal_update (st : controller W) : string :=
  DOMAIN ++ "-update-" ++ name st.

(** Writers of the five categories. *)
Definition set_hwinfo (r : record) : M W unit :=
  modify (fun st => with_data st (with_hwinfo (data st) r)).
Definition set_plugin (c : collection) : M W unit :=
  modify (fun st => with_data st (with_plugin (data st) c)).
Definition set_disk (c : collection) : M W unit :=
  modify (fun st => with_data st (with_disk (data st) c)).
Definition set_fs (c : collection) : M W unit :=
  modify (fun st => with_data st (with_fs (data st) c)).
Definition set_service (c : collection) : M W unit :=
  modify (fun st => with_data st (with_service (data st) c)).

(** [self.data["hwinfo"][k]]. *)
Definition hwinfo_item (k : string) : M W value :=
  hw <- gets (fun st => hwinfo (data st)) ;; lift (dict_item k hw).

(** [self.data["hwinfo"][k] = v]. *)
Definition hwinfo_assign (k : string) (v : value) : M W unit :=
  hw <- gets (fun st => hwinfo (data st)) ;; set_hwinfo (dict_set k v hw).

(** [self.data["disk"][uid][k]]. *)
Definition disk_item (uid k : string) : M W value :=
  d <- gets (fun st => disk (data st)) ;;
  r <- lift (dict_item uid d) ;;
  lift (dict_item k r).

(** [self.data["disk"][uid][k] = v]. *)
Definition disk_assign (uid k : string) (v : value) : M W unit :=
  d <- gets (fun st => disk (data st)) ;;
  r <- lift (dict_item uid d) ;;
  set_disk (dict_set uid (dict_set k v r) d).

(** [self.data["fs"][uid][k]]. *)
Definition fs_item (uid k : string) : M W value :=
  d <- gets (fun st => fs (data st)) ;;
  r <- lift (dict_item uid d) ;;
  lift (dict_item k r).

(** [self.data["fs"][uid][k] = v]. *)
Definition fs_assign (uid k : string) (v : value) : M W unit :=
  d <- gets (fun st => fs (data st)) ;;
  r <- lift (dict_item uid d) ;;
  set_fs (dict_set uid (dict_set k v r) d).

(** Lines 194 to 236 of [get_hwinfo]: the derived fields, computed when
    the transport is still connected after the query. *)
Definition hwinfo_derive : M W unit :=
  version <- hwinfo_item "version" ;;
  major <- lift (major_version version) ;;
  tmp <- (if major >? 5 then
            uptime <- hwinfo_item "uptime" ;;
            res <- lift (uptime_text uptime) ;;
            ret (split_on " " res)
          else
            uptime <- hwinfo_item "uptime" ;;
            lift (py_split " " uptime)) ;;
  tmp_uptime <- lift (uptime_seconds tmp) ;;
  now <- gets (fun st => clock_now (world st)) ;;
  iso <- lift (local_isoformat (now - tmp_uptime)) ;;
  hwinfo_assign "uptimeEpoch" (VStr iso) ;;
  cpu <- hwinfo_item "cpuUsage" ;;
  cpu' <- lift (py_round1 cpu) ;;
  hwinfo_assign "cpuUsage" cpu' ;;
  hw <- gets (fun st => hwinfo (data st)) ;;
  mem <- lift (mem_usage hw) ;;
  hwinfo_assign "memUsage" mem.

(** [get_hwinfo]. *)
Definition get_hwinfo : M W unit :=
  old <- gets (fun st => hwinfo (data st)) ;;
  source <- query "System" "getInformation" [] ;;
  set_hwinfo (parse_api_record old source hwinfo_vals hwinfo_ensure_vals []) ;;
  c <- connected ;;
  if negb c then ret tt else hwinfo_derive.

(** [get_disk]. *)
Definition get_disk : M W unit :=
  old <- gets (fun st => disk (data st)) ;;
  source <- query "DiskMgmt" "enumerateDevices" [] ;;
  set_disk (parse_api_keyed old source "devicename" disk_vals disk_ensure_vals []).

(** Lines 309 to 315 of [get_smart]: one static attribute copied from the
    answer onto the disk. *)
Definition copy_smart_info (uid : string) (tmp_data : record) (k : string) : M W unit :=
  v <- lift (dict_item k tmp_data) ;; disk_assign uid k v.

(** Lines 346 to 356 of [get_smart]: one listed attribute copied onto the
    disk, when the answer has it. *)
Definition copy_smart_attribute (uid : string) (tmp_data : collection)
    (tmp_val : string) : M W unit :=
  if dict_mem tmp_val tmp_data then
    attr <- lift (dict_item tmp_val tmp_data) ;;
    raw <- lift (dict_item "rawvalue" attr) ;;
    disk_assign uid tmp_val (smart_raw_value raw)
  else ret tt.

(** The body of the loop of [get_smart] for the disk [uid]; a [continue]
    ends the body. *)
Definition smart_disk (uid : string) : M W unit :=
  devicename <- disk_item uid "devicename" ;;
  mmc <- lift (py_startswith "mmcblk" devicename) ;;
  if mmc then ret tt else
  devicename <- disk_item uid "devicename" ;;
  sr <- lift (py_startswith "sr" devicename) ;;
  if sr then ret tt else
  devicename <- disk_item uid "devicename" ;;
  bcache <- lift (py_startswith "bcache" devicename) ;;
  if bcache then ret tt else
  devicefile <- disk_item uid "canonicaldevicefile" ;;
  source <- query "Smart" "getInformation" [("devicefile", devicefile)] ;;
  let tmp_data := parse_api_record [] source smart_info_vals [] [] in
  match tmp_data with
  | [] => ret tt
  | _ =>
      for_each smart_info_names (copy_smart_info uid tmp_data) ;;
      devicefile <- disk_item uid "canonicaldevicefile" ;;
      source <- query "Smart" "getAttributes" [("devicefile", devicefile)] ;;
      let tmp_data := parse_api_keyed [] source "attrname" smart_attr_vals [] [] in
      match tmp_data with
      | [] => ret tt
      | _ => for_each smart_attributes (copy_smart_attribute uid tmp_data)
      end
  end.

(** [get_smart]. *)
Definition get_smart : M W unit :=
  uids <- gets (fun st => dict_keys (disk (data st))) ;;
  for_each uids smart_disk.

(** Lines 385 to 391 of [get_fs]: a byte count of the filesystem [uid]
    turned into GiB. *)
Definition fs_to_gib (uid k : string) : M W unit :=
  raw <- fs_item uid k ;;
  n <- lift (py_int raw) ;;
  q <- lift (py_truediv n 1073741824) ;;
  fs_assign uid k (VFloat (py_round1_float q)).

(** [get_fs]. *)
Definition get_fs : M W unit :=
  old <- gets (fun st => fs (data st)) ;;
  source <- query "FileSystemMgmt" "enumerateFilesystems" [] ;;
  set_fs (parse_api_keyed old source "uuid" fs_vals [] fs_skip) ;;
  uids <- gets (fun st => dict_keys (fs (data st))) ;;
  for_each uids (fun uid => fs_to_gib uid "size" ;; fs_to_gib uid "available").

(** [get_service]. *)
Definition get_service : M W unit :=
  tmp <- query "Services" "getStatus" [] ;;
  wrapped <- lift (py_contains_data tmp) ;;
  tmp <- (if wrapped then lift (py_item_data tmp) else ret tmp) ;;
  old <- gets (fun st => service (data st)) ;;
  set_service (parse_api_keyed old tmp "name" service_vals [] []).

(** [get_plugin]. *)
Definition get_plugin : M W unit :=
  old <- gets (fun st => plugin (data st)) ;;
  source <- query "Plugin" "enumeratePlugins" [] ;;
  set_plugin (parse_api_keyed old source "name" plugin_vals [] []).

(** [try: await asyncio.wait_for(self.lock.acquire(), timeout) / except
    Exception]: [true] when the lock is now held, [false] when the wait
    timed out. *)
Definition acquire (timeout : nat) : M W bool :=
  fun st =>
    let (ok, w) := lock_wait timeout (world st) in
    if ok then
      (Ok true, with_trace (with_locked (with_world st w) true)
                  (trace st ++ [ELockAcquired timeout])%list)
    else
      (Ok false, with_trace (with_world st w)
                   (trace st ++ [ELockTimeout timeout])%list).

(** [self.lock.release()]; releasing a lock that is not held is a
    [RuntimeError]. *)
Definition release : M W unit :=
  fun st =>
    if locked st then
      (Ok tt, with_trace (with_locked st false) (trace st ++ [ELockReleased])%list)
    else (Raise RuntimeError, st).

(** [await self.hass.async_add_executor_job(job)]. *)
Definition executor_job (f : fetch) (job : M W unit) : M W unit :=
  emit (EJob f) ;; job.

(** [async_dispatcher_send(self.hass, self.signal_update)]. *)
Definition dispatcher_send : M W unit :=
  s <- gets signal_update ;; emit (ESignal s).

(** [if self.api.connected(): await
    self.hass.async_add_executor_job(job)]. *)
Definition when_connected (f : fetch) (job : M W unit) : M W unit :=
  c <- check_connected ;;
  if c then executor_job f job else ret tt.

(** [async_hwinfo_update]. *)
Definition async_hwinfo_update : M W unit :=
  acquired <- acquire 30 ;;
  if negb acquired then ret tt else
  executor_job Hwinfo get_hwinfo ;;
  when_connected Plugin get_plugin ;;
  when_connected Disk get_disk ;;
  release.

(** Lines 156 to 170 of [async_update]: the cycle proper, after the test
    for a reconnection. *)
Definition async_update_cycle : M W unit :=
  acquired <- acquire 10 ;;
  if negb acquired then ret tt else
  executor_job Hwinfo get_hwinfo ;;
  when_connected Fs get_fs ;;
  when_connected Smart get_smart ;;
  when_connected Service get_service ;;
  dispatcher_send ;;
  release.

(** [async_update]. *)
Definition async_update : M W unit :=
  r <- has_reconnected ;;
  (if r then async_hwinfo_update else ret tt) ;;
  async_update_cycle.

(** [force_hwinfo_update] and [force_update], the timer callbacks. *)
Definition force_hwinfo_update : M W unit := async_hwinfo_update.
Definition force_update : M W unit := async_update.

(** [async_track_time_interval(self.hass, callback, timedelta(seconds))]:
    the timer is registered with [hass]; the handle that cancels it is
    its index. *)
Definition async_track_time_interval (cb : timer_callback) (seconds : nat) : M W nat :=
  fun st =>
    (Ok (List.length (hass_timers st)),
     with_hass_timers st (hass_timers st ++ [mkTimer cb seconds])%list).

(** [async_init]. *)
Definition async_init : M W unit :=
  h <- async_track_time_interval ForceUpdate 60 ;;
  modify (fun st => with_force_update_callback st (Some h)) ;;
  h <- async_track_time_interval ForceHwinfoUpdate 3600 ;;
  modify (fun st => with_force_hwinfo_update_callback st (Some h)).

(** [async_reset]: each listener is an unsubscribe callable, calling it is
    recorded in the trace. *)
Definition async_reset : M W bool :=
  ls <- gets listeners ;;
  for_each ls (fun unsub_dispatcher => emit (EUnsubscribe unsub_dispatcher)) ;;
  modify (fun st => with_listeners st []) ;;
  ret true.
End Methods.

(** ** Reading a trace *)

Definition is_query (e : event) : bool :=
  match e with
  | EQuery _ _ _ => true
  | _ => false
  end.

Definition is_signal (e : event) : bool :=
  match e with
  | ESignal _ => true
  | _ => false
  end.

(** The events of a run without the queries of its jobs. *)
Definition control (evs : list event) : list event :=
  filter (fun e => negb (is_query e)) evs.

(** The number of change notifications in a trace. *)
Definition signals (evs : list event) : nat := List.length (filter is_signal evs).


(** Whether the lock is held after the events of a trace. *)
Fixpoint lock_after (held : bool) (evs : list event) : bool :=
  match evs with
  | [] => held
  | ELockAcquired _ :: rest => lock_after true rest
  | ELockReleased :: rest => lock_after false rest
  | _ :: rest => lock_after held rest
  end.

(** Whether every notification of a trace is sent while the lock is held
    ([held] tells whether it is held at the start). *)
Fixpoint signals_under_lock (held : bool) (evs : list event) : bool :=
  match evs with
  | [] => true
  | ELockAcquired _ :: rest => signals_under_lock true rest
  | ELockReleased :: rest => signals_under_lock false rest
  | ESignal _ :: rest => held && signals_under_lock held rest
  | _ :: rest => signals_under_lock held rest
  end.

(** Whether every notification of a trace is sent after the lock has been
    given back, that is while it is not held. *)
Fixpoint signals_after_release (held : bool) (evs : list event) : bool :=
  match evs with
  | [] => true
  | ELockAcquired _ :: rest => signals_after_release true rest
  | ELockReleased :: rest => signals_after_release false rest
  | ESignal _ :: rest => negb held && signals_after_release held rest
  | _ :: rest => signals_after_release held rest
  end.

(** The events of [when_connected f job], queries aside, when the test
    answers [c]. *)
Definition guard_events (f : fetch) (c : bool) : list event :=
  EConnected c :: (if c then [EJob f] else []).

(** The events of a fast cycle that holds the lock and completes, queries
    aside; [c1] and [c2] are the answers of the two connectivity tests. *)
Definition fast_shape (c1 c2 : bool) : list event :=
  ([ELockAcquired 30; EJob Hwinfo] ++ guard_events Plugin c1
   ++ guard_events Disk c2 ++ [ELockReleased])%list.

(** The events of a slow cycle that holds the lock and completes, queries
    aside. *)
Definition slow_shape (signal : string) (c1 c2 c3 : bool) : list event :=
  ([ELockAcquired 10; EJob Hwinfo] ++ guard_events Fs c1
   ++ guard_events Smart c2 ++ guard_events Service c3
   ++ [ESignal signal; ELockReleased])%list.

Definition category_eqb (a b : category) : bool :=
  match a, b with
  | CHwinfo, CHwinfo | CPlugin, CPlugin | CDisk, CDisk | CFs, CFs
  | CService, CService => true
  | _, _ => false
  end.

(** Two snapshots agree on a category. *)
Definition same_category (c : category) (a b : snapshot) : Prop :=
  match c with
  | CHwinfo => hwinfo a = hwinfo b
  | CPlugin => plugin a = plugin b
  | CDisk => disk a = disk b
  | CFs => fs a = fs b
  | CService => service a = service b
  end.

(** From [st] to [st'] the run has written at most the categories [cs] of
    the snapshot and has added the events [evs] to the trace; the name, the
    listeners and the timers are as they were. *)
Definition step {W} (cs : list category) (evs : list event)
    (st st' : controller W) : Prop :=
  name st' = name st
  /\ listeners st' = listeners st
  /\ force_update_callback st' = force_update_callback st
  /\ force_hwinfo_update_callback st' = force_hwinfo_update_callback st
  /\ hass_timers st' = hass_timers st
  /\ (forall c, existsb (category_eqb c) cs = false ->
                same_category c (data st) (data st'))
  /\ trace st' = (trace st ++ evs)%list.

(** A computation that behaves as a job on the categories [cs], whether it
    returns or raises: it writes at most these categories, leaves the lock
    alone and adds nothing but queries to the trace. *)
Definition job {W A} (cs : list category) (m : M W A) : Prop :=
  forall st r st',
    m st = (r, st') ->
    locked st' = locked st
    /\ exists qs, step cs qs st st' /\ control qs = [].


(** Inside a cycle: since [st] the run has written at most [cs], its events
    are [sk] once the queries are left out, and it holds the lock. *)
Definition reach {W} (cs : list category) (sk : list event)
    (st s : controller W) : Prop :=
  locked s = true /\ exists evs, step cs evs st s /\ control evs = sk.

(** The categories that a fast and a slow cycle write, by the answers of
    their connectivity tests. *)
Definition fast_categories (c1 c2 : bool) : list category :=
  ([CHwinfo] ++ (if c1 then [CPlugin] else []) ++ (if c2 then [CDisk] else []))%list.

Definition slow_categories (c1 c2 c3 : bool) : list category :=
  ([CHwinfo] ++ (if c1 then [CFs] else []) ++ (if c2 then [CDisk] else [])
   ++ (if c3 then [CService] else []))%list.

(** ** A simulated environment

    A small concrete world, used to run the methods on examples: the
    transport answers from a table, the lock waits follow a script, the clock
    stands still and the host is on UTC. *)
Module Sim.

Record answer : Type := mkAnswer {
  a_service : string;
  a_method : string;
  a_result : outcome value;
  a_connected : bool
}.

Record sim : Type := mkSim {
  sim_connected : bool;
  sim_reconnected : bool;
  sim_answers : list answer;
  sim_lock : list bool;
  sim_clock : Z
}.

(** A query is answered by the first entry of the table for the service and
    the method; the entry also tells whether the transport is connected
    afterwards.  A query that the table does not know fails the way the
    transport does when the device is unreachable: no data, disconnected. *)
Definition sim_query (service_name method : string) (params : record) (w : sim)
    : outcome value * sim :=
  match find (fun a => String.eqb (a_service a) service_name
                       && String.eqb (a_method a) method) (sim_answers w) with
  | Some a => (a_result a, mkSim (a_connected a) (sim_reconnected w)
                             (sim_answers w) (sim_lock w) (sim_clock w))
  | None => (Ok VNone, mkSim false (sim_reconnected w) (sim_answers w)
                         (sim_lock w) (sim_clock w))
  end.

(** The reconnection flag is reported once. *)
Definition sim_has_reconnected (w : sim) : bool * sim :=
  (sim_reconnected w,
   mkSim (sim_connected w) false (sim_answers w) (sim_lock w) (sim_clock w)).

(** The waits for the lock follow the script; once the script is used up the
    lock is free. *)
Definition sim_lock_wait (timeout : nat) (w : sim) : bool * sim :=
  match sim_lock w with
  | [] => (true, w)
  | b :: rest =>
      (b, mkSim (sim_connected w) (sim_reconnected w) (sim_answers w) rest (sim_clock w))
  end.

(** The civil date of a day number (days since 1970-01-01). *)
Definition civil_of_days (z : Z) : Z * Z * Z :=
  let z := z + 719468 in
  let era := z / 146097 in
  let doe := z - era * 146097 in
  let yoe := (doe - doe / 1460 + doe / 36524 - doe / 146096) / 365 in
  let doy := doe - (365 * yoe + yoe / 4 - yoe / 100) in
  let mp := (5 * doy + 2) / 153 in
  let d := doy - (153 * mp + 2) / 5 + 1 in
  let m := if mp <? 10 then mp + 3 else mp - 9 in
  let y := yoe + era * 400 + (if m <=? 2 then 1 else 0) in
  (y, m, d).

Definition format_04d (n : Z) : string :=
  let digits := string_of_Z n in
  zeros (4 - String.length digits) ++ digits.

(** ISO 8601 text of a time counted in seconds since 1970-01-01T00:00:00, on
    a host whose local time is UTC; dates outside the years 1 to 9999 are out
    of range. *)
Definition sim_isoformat (t : Z) : outcome string :=
  let '(y, m, d) := civil_of_days (t / 86400) in
  let s := t mod 86400 in
  if (1 <=? y) && (y <=? 9999) then
    Ok (format_04d y ++ "-" ++ format_02d m ++ "-" ++ format_02d d ++ "T"
        ++ format_02d (s / 3600) ++ ":" ++ format_02d (s mod 3600 / 60) ++ ":"
        ++ format_02d (s mod 60) ++ "+00:00")
  else Raise OverflowError.

#[global] Instance sim_environment : Environment sim := {
  DOMAIN := "openmediavault";
  api_query := sim_query;
  api_connected := sim_connected;
  api_has_reconnected := sim_has_reconnected;
  lock_wait := sim_lock_wait;
  clock_now := sim_clock;
  local_isoformat := sim_isoformat
}.

(** The simulated runtime prints a float or a container as a placeholder. *)
#[global] Instance sim_repr : Repr := fun _ => "<object>".

Definition row (fields : list (string * value)) : value := VDict fields.

(** A device that answers every query of the two cycles. *)
Definition healthy_answers : list answer :=
  [ mkAnswer "System" "getInformation"
      (Ok (row [("hostname", VStr "nas"); ("version", VStr "6.0.0");
                ("cpuUsage", VInt 3); ("memTotal", VInt 200);
                ("memUsed", VInt 50); ("uptime", VInt 90061)])) true;
    mkAnswer "Plugin" "enumeratePlugins"
      (Ok (VList [row [("name", VStr "openmediavault-lvm2"); ("installed", VBool true)]]))
      true;
    mkAnswer "DiskMgmt" "enumerateDevices"
      (Ok (VList [row [("devicename", VStr "sda");
                       ("canonicaldevicefile", VStr "/dev/sda");
                       ("size", VStr "1000204886016")];
                  row [("devicename", VStr "mmcblk0");
                       ("canonicaldevicefile", VStr "/dev/mmcblk0");
                       ("size", VStr "31914983424")]]))
      true;
    mkAnswer "FileSystemMgmt" "enumerateFilesystems"
      (Ok (VList [row [("uuid", VStr "1f2e"); ("type", VStr "ext4");
                       ("size", VStr "1073741824"); ("available", VStr "536870912")];
                  row [("uuid", VStr "77aa"); ("type", VStr "swap")]]))
      true;
    mkAnswer "Smart" "getInformation"
      (Ok (row [("devicemodel", VStr "WDC WD10EFRX"); ("serialnumber", VStr "WD-1234");
                ("writecacheis", VBool true)]))
      true;
    mkAnswer "Smart" "getAttributes"
      (Ok (VList [row [("attrname", VStr "Temperature_Celsius");
                       ("rawvalue", VStr "31 (Min/Max 20/45)")];
                  row [("attrname", VStr "Start_Stop_Count"); ("rawvalue", VInt 12)]]))
      true;
    mkAnswer "Services" "getStatus"
      (Ok (row [("data", VList [row [("name", VStr "ssh"); ("title", VStr "SSH");
                                     ("enabled", VBool true); ("running", VBool true)]])]))
      true ].

(** 2025-11-03T13:20:00 as the time of the examples. *)
Definition healthy : sim := mkSim true false healthy_answers [] 1762176000.

Definition fresh (w : sim) : controller sim := init "nas" w.

(** A row of [enumerateDevices] for the disk [n]. *)
Definition disk_row (n : string) : value :=
  row [("devicename", VStr n); ("canonicaldevicefile", VStr ("/dev/" ++ n))].

(** The disks [A], [B] and [C] as an earlier cycle left them, the serial
    number of [B] known from an earlier SMART query. *)
Definition disks_abc : collection :=
  let c := parse_api_keyed [] (VList [disk_row "A"; disk_row "B"; disk_row "C"])
             "devicename" disk_vals disk_ensure_vals [] in
  match dict_get "B" c with
  | Some r => dict_set "B" (dict_set "serialnumber" (VStr "WD-B") r) c
  | None => c
  end.

(** A later answer of [enumerateDevices]: [A] is gone, [D] is new. *)
Definition rows_bcd : value := VList [disk_row "B"; disk_row "C"; disk_row "D"].

(** The healthy device at a time when another cycle keeps the lock: the
    first wait for the lock times out. *)
Definition busy : sim := mkSim true false healthy_answers [false] 1762176000.



(** A device whose transport raises on the status of the services. *)
Definition failing_services : sim :=
  mkSim true false
    (mkAnswer "Services" "getStatus" (Raise (ApiError "connection reset")) true
     :: healthy_answers)
    [] 1762176000.

(** A device whose system information is the given value. *)
Definition with_information (v : value) : sim :=
  mkSim true false
    (mkAnswer "System" "getInformation" (Ok v) true :: healthy_answers)
    [] 1762176000.

(** A device whose filesystem listing is the given value. *)
Definition with_filesystems (v : value) : sim :=
  mkSim true false
    (mkAnswer "FileSystemMgmt" "enumerateFilesystems" (Ok v) true :: healthy_answers)
    [] 1762176000.

End Sim.

(** * Properties *)

(** ** Python built-ins on examples *)

Example split_version : split_on "." "6.0.0" = ["6"; "0"; "0"].
Proof. reflexivity. Qed.

Example int_of_padded : int_of_string " -1_000 " = Some (-1000).
Proof. reflexivity. Qed.

Example int_of_unknown : int_of_string "unknown" = None.
Proof. reflexivity. Qed.

Example format_02d_1 : format_02d 1 = "01".
Proof. reflexivity. Qed.

Example round1_quarter :
  obind (py_truediv 1 4) (fun x => Ok (py_round1_float x))
  = obind (py_truediv 2 10) Ok.
Proof. vm_compute. reflexivity. Qed.

Example round1_035 :
  obind (py_truediv 35 100) (fun x => Ok (py_round1_float x))
  = obind (py_truediv 3 10) Ok.
Proof. vm_compute. reflexivity. Qed.

(** ** Dictionaries *)

Section DictFacts.
Context {V : Type}.
Implicit Types (d : dict V) (k : string) (v : V).

Lemma dict_get_set_same k v d : dict_get k (dict_set k v d) = Some v.
Proof.
  induction d as [|[k' v'] d IH]; simpl.
  - now rewrite String.eqb_refl.
  - destruct (String.eqb k k') eqn:E; simpl; rewrite E; auto.
Qed.

Lemma dict_get_set_other k k' v d :
  String.eqb k k' = false -> dict_get k (dict_set k' v d) = dict_get k d.
Proof.
  intros N. induction d as [|[k2 v2] d IH]; simpl.
  - now rewrite N.
  - destruct (String.eqb k' k2) eqn:E; simpl.
    + apply String.eqb_eq in E. subst k2. now rewrite N.
    + destruct (String.eqb k k2); auto.
Qed.

Lemma dict_item_ok k d v : dict_item k d = Ok v <-> dict_get k d = Some v.
Proof.
  unfold dict_item. destruct (dict_get k d); split; congruence.
Qed.

Lemma dict_mem_get k d : dict_mem k d = true <-> dict_get k d <> None.
Proof.
  unfold dict_mem. destruct (dict_get k d); split; congruence.
Qed.

Lemma dict_keys_set k v d :
  dict_keys (dict_set k v d)
  = if dict_mem k d then dict_keys d else (dict_keys d ++ [k])%list.
Proof.
  unfold dict_mem, dict_keys.
  induction d as [|[k2 v2] d IH]; simpl; auto.
  destruct (String.eqb k k2) eqn:E; simpl; auto.
  rewrite IH. now destruct (dict_get k d).
Qed.

Lemma dict_keys_get k d : In k (dict_keys d) <-> dict_get k d <> None.
Proof.
  unfold dict_keys.
  induction d as [|[k2 v2] d IH]; simpl.
  - tauto.
  - destruct (String.eqb k k2) eqn:E.
    + apply String.eqb_eq in E. split; [congruence | auto].
    + apply String.eqb_neq in E. rewrite <- IH. split; [intros [->|]|]; tauto.
Qed.

Lemma dict_keys_set_nodup k v d :
  NoDup (dict_keys d) -> NoDup (dict_keys (dict_set k v d)).
Proof.
  intros N. rewrite dict_keys_set. destruct (dict_mem k d) eqn:E; auto.
  apply NoDup_app; auto.
  - repeat constructor. simpl. tauto.
  - intros x Hx [<-|[]]. apply dict_keys_get in Hx.
    apply dict_mem_get in Hx. congruence.
Qed.
End DictFacts.

(** Lookups through assignments to literal keys. *)
Ltac dict_simpl :=
  repeat match goal with
  | |- context [dict_get ?k (dict_set ?k ?v ?d)] =>
      rewrite (dict_get_set_same k v d)
  | |- context [dict_get ?k (dict_set ?k' ?v ?d)] =>
      rewrite (dict_get_set_other k k' v d) by reflexivity
  end.

Section MonadFacts.
Context {W : Type}.


Lemma bind_inv {A B} (m : M W A) (k : A -> M W B) st r st' :
  bind m k st = (r, st') ->
  (exists a st1, m st = (Ok a, st1) /\ k a st1 = (r, st'))
  \/ (exists e, m st = (Raise e, st') /\ r = Raise e).
Proof.
  unfold bind. destruct (m st) as [[a|e] st1]; intros E.
  - left. eauto.
  - right. exists e. inversion E. auto.
Qed.

Lemma bind_ok_inv {A B} (m : M W A) (k : A -> M W B) st b st' :
  bind m k st = (Ok b, st') ->
  exists a st1, m st = (Ok a, st1) /\ k a st1 = (Ok b, st').
Proof.
  intros E. apply bind_inv in E as [?|(e & _ & ?)]; [auto | discriminate].
Qed.

Lemma lift_ok_inv {A} (o : outcome A) (st : controller W) a st' :
  lift o st = (Ok a, st') -> o = Ok a /\ st' = st.
Proof. unfold lift. intros E. inversion E. auto. Qed.

Lemma gets_inv {A} (f : controller W -> A) st r st' :
  gets f st = (r, st') -> r = Ok (f st) /\ st' = st.
Proof. unfold gets. intros E. inversion E. auto. Qed.

Lemma modify_inv (f : controller W -> controller W) st r st' :
  modify f st = (r, st') -> r = Ok tt /\ st' = f st.
Proof. unfold modify. intros E. inversion E. auto. Qed.

Lemma ret_inv {A} (a : A) (st : controller W) r st' :
  ret a st = (r, st') -> r = Ok a /\ st' = st.
Proof. unfold ret. intros E. inversion E. auto. Qed.
End MonadFacts.

Lemma obind_ok_inv {A B} (o : outcome A) (k : A -> outcome B) b :
  obind o k = Ok b -> exists a, o = Ok a /\ k a = Ok b.
Proof. destruct o; simpl; [eauto | discriminate]. Qed.

(** Forward inversion of a run that returned normally. *)
Ltac run_inv :=
  repeat match goal with
  | H : bind _ _ _ = (Ok _, _) |- _ =>
      let a := fresh "a" in let s := fresh "s" in
      let H1 := fresh "R" in let H2 := fresh "R" in
      apply bind_ok_inv in H as (a & s & H1 & H2)
  | H : lift _ _ = (Ok _, _) |- _ =>
      let H1 := fresh "L" in
      apply lift_ok_inv in H as [H1 ->]
  | H : gets _ _ = (_, _) |- _ =>
      let H1 := fresh "G" in
      apply gets_inv in H as [H1 ->]; injection H1 as H1; try subst
  | H : modify _ _ = (_, _) |- _ =>
      let H1 := fresh in
      apply modify_inv in H as [H1 ->]; clear H1
  | H : ret _ _ = (_, _) |- _ =>
      let H1 := fresh "G" in
      apply ret_inv in H as [H1 ->]; try (injection H1 as H1; try subst)
  | H : obind _ _ = Ok _ |- _ =>
      let a := fresh "a" in
      let H1 := fresh "O" in let H2 := fresh "O" in
      apply obind_ok_inv in H as (a & H1 & H2)
  end.

Lemma split_on_first c s :
  exists w rest,
    split_on c s = w :: rest
    /\ contains_char c w = false
    /\ ((rest = [] /\ s = w)
        \/ exists tail, s = w ++ String c tail /\ rest = split_on c tail).
Proof.
  induction s as [|a r IH]; simpl.
  - exists EmptyString, []. auto.
  - destruct (Ascii.eqb a c) eqn:E.
    + apply Ascii.eqb_eq in E. subst a.
      exists EmptyString, (split_on c r). simpl. eauto 6.
    + destruct IH as (w & rest & -> & Hw & Hs).
      exists (String a w), rest. simpl.
      rewrite Ascii.eqb_sym, E, Hw. simpl.
      repeat split; auto.
      destruct Hs as [[-> ->]|(tail & -> & ->)]; [left|right]; eauto.
Qed.

Lemma uptime_text_sign n :
  uptime_text (VInt n)
  = obind (uptime_text (VInt (Z.abs n)))
          (fun text => Ok (if n <? 0 then "-" ++ text else text)).
Proof.
  unfold uptime_text. cbn [py_int obind]. rewrite Z.abs_idemp.
  repeat match goal with
  | |- context [obind (py_truediv ?a ?b) _] =>
      destruct (py_truediv a b); cbn [obind]; auto
  | |- context [obind (format_uptime ?a ?b ?c ?d) _] =>
      destruct (format_uptime a b c d); cbn [obind]; auto
  end.
  assert ((Z.abs n <? 0) = false) as -> by (apply Z.ltb_ge; lia).
  reflexivity.
Qed.

Section Hwinfo.
Context {W : Type} `{Environment W} `{Repr}.

Lemma mem_usage_set_other k v hw :
  String.eqb "memTotal" k = false -> String.eqb "memUsed" k = false ->
  mem_usage (dict_set k v hw) = mem_usage hw.
Proof.
  intros N1 N2. unfold mem_usage, dict_item.
  rewrite !dict_get_set_other by assumption. reflexivity.
Qed.

Lemma hwinfo_derive_inv (st st' : controller W) :
  hwinfo_derive st = (Ok tt, st') ->
  let hw := hwinfo (data st) in
  exists version uptime words total iso cpu cpu' mem,
    dict_get "version" hw = Some version
    /\ dict_get "uptime" hw = Some uptime
    /\ uptime_words version uptime = Ok words
    /\ uptime_seconds words = Ok total
    /\ local_isoformat (clock_now (world st) - total) = Ok iso
    /\ dict_get "cpuUsage" hw = Some cpu
    /\ py_round1 cpu = Ok cpu'
    /\ mem_usage hw = Ok mem
    /\ st' = with_data st
               (with_hwinfo (data st)
                  (dict_set "memUsage" mem
                     (dict_set "cpuUsage" cpu'
                        (dict_set "uptimeEpoch" (VStr iso) hw)))).
Proof.
  unfold hwinfo_derive, hwinfo_item, hwinfo_assign, set_hwinfo. intros E.
  run_inv. simpl in *.
  match goal with
  | Hm : major_version _ = Ok ?m, Hb : (if ?m >? 5 then _ else _) _ = _ |- _ =>
      assert (exists uptime,
                 dict_get "uptime" (hwinfo (data st)) = Some uptime
                 /\ (if m >? 5
                     then obind (uptime_text uptime) (fun res => Ok (split_on " " res))
                     else py_split " " uptime) = Ok a1
                 /\ s1 = st) as (uptime & Hu & Hw & ->)
        by (destruct (m >? 5); run_inv; simpl in *;
            match goal with
            | Hd : dict_item "uptime" _ = Ok ?u |- _ =>
                exists u; apply dict_item_ok in Hd;
                repeat split; auto
            end;
            match goal with
            | Hd : uptime_text _ = _ |- _ => now rewrite Hd
            end)
  end.
  rewrite dict_item_ok in *.
  rewrite dict_get_set_other in * by reflexivity.
  rewrite !mem_usage_set_other in * by reflexivity.
  do 8 eexists. repeat split; eauto.
  unfold uptime_words.
  match goal with Hm : major_version _ = Ok _ |- _ => rewrite Hm end.
  exact Hw.
Qed.

Lemma get_hwinfo_inv (st st' : controller W) :
  get_hwinfo st = (Ok tt, st') ->
  exists source w,
    api_query "System" "getInformation" [] (world st) = (Ok source, w)
    /\ let st1 :=
         with_data
           (with_trace (with_world st w)
              (trace st ++ [EQuery "System" "getInformation" []])%list)
           (with_hwinfo (data st)
              (parse_api_record (hwinfo (data st)) source hwinfo_vals
                 hwinfo_ensure_vals [])) in
       (api_connected w = false /\ st' = st1)
       \/ (api_connected w = true /\ hwinfo_derive st1 = (Ok tt, st')).
Proof.
  unfold get_hwinfo, set_hwinfo, connected. intros E.
  apply bind_ok_inv in E as (old & s0 & E0 & E).
  apply gets_inv in E0 as [E0 ->]. injection E0 as ->.
  apply bind_ok_inv in E as (source & s1 & E1 & E).
  unfold query in E1.
  destruct (api_query "System" "getInformation" [] (world st)) as [r w] eqn:Q.
  injection E1 as -> <-.
  exists source, w. split; [reflexivity|].
  apply bind_ok_inv in E as (u & s2 & E2 & E).
  apply modify_inv in E2 as [_ ->].
  apply bind_ok_inv in E as (c & s3 & E3 & E).
  apply gets_inv in E3 as [E3 ->]. injection E3 as ->.
  simpl in *.
  destruct (api_connected w) eqn:C; simpl in E.
  - right. auto.
  - left. apply ret_inv in E as [_ ->]. auto.
Qed.


Lemma mem_usage_inv hw mem :
  mem_usage hw = Ok mem ->
  exists t,
    obind (dict_item "memTotal" hw) py_int = Ok t
    /\ (t <= 0 -> mem = VInt 0)
    /\ (0 < t ->
        exists u q m,
          obind (dict_item "memUsed" hw) py_int = Ok u
          /\ py_truediv u t = Ok q
          /\ py_mul_float_int q 100 = Ok m
          /\ mem = VFloat (py_round1_float m)).
Proof.
  unfold mem_usage. intros E.
  apply obind_ok_inv in E as (total & E1 & E).
  apply obind_ok_inv in E as (t & E2 & E).
  apply obind_ok_inv in E as (raw & E3 & E).
  exists t. rewrite E1. simpl. split; [exact E2|].
  destruct (t >? 0) eqn:G.
  - apply Z.gtb_lt in G. split; [lia|]. intros _.
    apply obind_ok_inv in E3 as (used & U1 & E3).
    apply obind_ok_inv in E3 as (u & U2 & E3).
    apply obind_ok_inv in E3 as (total' & U3 & E3).
    apply obind_ok_inv in E3 as (t' & U4 & E3).
    apply obind_ok_inv in E3 as (q & U5 & E3).
    apply obind_ok_inv in E3 as (m & U6 & E3).
    assert (t' = t) as -> by congruence.
    injection E3 as <-. simpl in E. injection E as <-.
    exists u, q, m. rewrite U1. simpl. auto.
  - assert (t <= 0) by (rewrite Z.gtb_ltb in G; apply Z.ltb_ge in G; lia).
    split; [|lia]. intros _. injection E3 as <-. simpl in E. congruence.
Qed.

(** C7: in [get_hwinfo], when the transport is still connected, the stored
    [memUsage] is [round(memUsed / memTotal * 100, 1)] when [memTotal] is
    positive and the integer [0] otherwise; [memUsed=512, memTotal=0] gives
    [0] and [memUsed=50, memTotal=200] gives [25.0]. *)
Theorem get_hwinfo_mem_usage (st st' : controller W) :
  get_hwinfo st = (Ok tt, st') ->
  api_connected (world st') = true ->
  (let hw := hwinfo (data st') in
   exists t,
     obind (dict_item "memTotal" hw) py_int = Ok t
     /\ (t <= 0 -> dict_get "memUsage" hw = Some (VInt 0))
     /\ (0 < t ->
         exists u q m,
           obind (dict_item "memUsed" hw) py_int = Ok u
           /\ py_truediv u t = Ok q
           /\ py_mul_float_int q 100 = Ok m
           /\ dict_get "memUsage" hw = Some (VFloat (py_round1_float m))))
  /\ mem_usage [("memUsed", VInt 512); ("memTotal", VInt 0)] = Ok (VInt 0)
  /\ mem_usage [("memUsed", VInt 50); ("memTotal", VInt 200)]
     = Ok (VFloat (float_of_Z 25)).
Proof.
  intros E C. split; [|split; vm_compute; reflexivity].
  apply get_hwinfo_inv in E as (source & w & Q & [[C' ->]|[_ D]]).
  - simpl in C. congruence.
  - apply hwinfo_derive_inv in D
      as (version & uptime & words & total & iso & cpu & cpu' & mem
          & _ & _ & _ & _ & _ & _ & _ & Hm & ->).
    simpl. simpl in Hm.
    apply mem_usage_inv in Hm as (t & Ht & Hle & Hgt).
    exists t. unfold dict_item in *.
    rewrite !dict_get_set_other by reflexivity.
    rewrite dict_get_set_same.
    split; [exact Ht|]. split.
    + intros L. now rewrite (Hle L).
    + intros L. destruct (Hgt L) as (u & q & m & ? & ? & ? & ->).
      exists u, q, m.
      rewrite !dict_get_set_other by reflexivity. auto.
Qed.

Lemma uptime_seconds_inv words total :
  uptime_seconds words = Ok total ->
  exists days hours minutes seconds,
    int_at words 0 = Ok days /\ int_at words 2 = Ok hours
    /\ int_at words 4 = Ok minutes /\ int_at words 6 = Ok seconds
    /\ total = days * 86400 + hours * 3600 + minutes * 60 + seconds.
Proof.
  unfold uptime_seconds. intros E.
  apply obind_ok_inv in E as (d & E1 & E).
  apply obind_ok_inv in E as (h & E2 & E).
  apply obind_ok_inv in E as (m & E3 & E).
  apply obind_ok_inv in E as (s & E4 & E).
  injection E as <-. exists d, h, m, s. auto.
Qed.

Lemma uptime_words_inv version uptime words :
  uptime_words version uptime = Ok words ->
  exists major,
    major_version version = Ok major
    /\ (5 < major ->
        exists text, uptime_text uptime = Ok text /\ words = split_on " " text)
    /\ (major <= 5 -> exists s, uptime = VStr s /\ words = split_on " " s).
Proof.
  unfold uptime_words. intros E.
  apply obind_ok_inv in E as (major & E1 & E).
  exists major. split; [exact E1|].
  destruct (major >? 5) eqn:G.
  - apply Z.gtb_lt in G. split; [|lia]. intros _.
    apply obind_ok_inv in E as (text & E2 & E). injection E as <-. eauto.
  - assert (major <= 5) by (rewrite Z.gtb_ltb in G; apply Z.ltb_ge in G; lia).
    split; [lia|]. intros _.
    destruct uptime; simpl in E; try discriminate. injection E as <-. eauto.
Qed.

(** C4: in [get_hwinfo], the major version (the integer before the first
    dot of the version string) selects the branch: above 5 the raw uptime is
    turned into the text ["D days HH hours MM minutes SS seconds"] (computed
    on the absolute value, with a leading minus sign for a negative count),
    otherwise the raw uptime string is split as it is; the words 0, 2, 4 and
    6 are read back as integers, summed into seconds and subtracted from the
    local time now, and the ISO text of that instant is stored as
    [uptimeEpoch].  The count 90061 under version ["6.0.0"] gives
    ["1 days 01 hours 01 minutes 01 seconds"] and a total of 90061. *)
Theorem get_hwinfo_uptime_epoch (st st' : controller W) :
  get_hwinfo st = (Ok tt, st') ->
  api_connected (world st') = true ->
  (let hw := hwinfo (data st') in
   exists version uptime major words days hours minutes seconds iso,
     dict_get "version" hw = Some version
     /\ dict_get "uptime" hw = Some uptime
     /\ major_version version = Ok major
     /\ (5 < major ->
         exists text, uptime_text uptime = Ok text /\ words = split_on " " text)
     /\ (major <= 5 -> exists s, uptime = VStr s /\ words = split_on " " s)
     /\ int_at words 0 = Ok days /\ int_at words 2 = Ok hours
     /\ int_at words 4 = Ok minutes /\ int_at words 6 = Ok seconds
     /\ local_isoformat
          (clock_now (world st')
           - (days * 86400 + hours * 3600 + minutes * 60 + seconds)) = Ok iso
     /\ dict_get "uptimeEpoch" hw = Some (VStr iso))
  /\ (forall s, exists first rest,
         split_on "." s = first :: rest
         /\ contains_char "." first = false
         /\ (s = first \/ exists tail, s = first ++ String "." tail)
         /\ major_version (VStr s) = py_int (VStr first))
  /\ (forall n,
        uptime_text (VInt n)
        = obind (uptime_text (VInt (Z.abs n)))
                (fun text => Ok (if n <? 0 then "-" ++ text else text)))
  /\ major_version (VStr "6.0.0") = Ok 6
  /\ uptime_text (VInt 90061) = Ok "1 days 01 hours 01 minutes 01 seconds"
  /\ uptime_seconds (split_on " " "1 days 01 hours 01 minutes 01 seconds")
     = Ok 90061.
Proof.
  intros E C. split; [|split; [|split; [|repeat split; vm_compute; reflexivity]]].
  - apply get_hwinfo_inv in E as (source & w & Q & [[C' ->]|[_ D]]).
    { simpl in C. congruence. }
    apply hwinfo_derive_inv in D
      as (version & uptime & words & total & iso & cpu & cpu' & mem
          & Hv & Hu & Hw & Ht & Hi & _ & _ & _ & ->).
    simpl in *.
    apply uptime_words_inv in Hw as (major & Hm & Hgt & Hle).
    apply uptime_seconds_inv in Ht as (d & h & m & s & ? & ? & ? & ? & ->).
    exists version, uptime, major, words, d, h, m, s, iso.
    dict_simpl. repeat split; auto.
  - intros s. destruct (split_on_first "." s) as (w & rest & Hs & Hw & Hr).
    exists w, rest. repeat split; auto.
    + destruct Hr as [[_ ->]|(tail & -> & _)]; eauto.
    + unfold major_version. simpl. now rewrite Hs.
  - exact uptime_text_sign.
Qed.

End Hwinfo.

(** The memory usage on the simulated device: 50 of 200 is 25.0. *)
Lemma get_hwinfo_mem_usage_witness :
  let st := Sim.fresh Sim.healthy in
  let st' := snd (get_hwinfo st) in
  get_hwinfo st = (Ok tt, st')
  /\ api_connected (world st') = true
  /\ dict_get "memUsage" (hwinfo (data st')) = Some (VFloat (float_of_Z 25))
  /\ mem_usage [("memUsed", VInt 512); ("memTotal", VInt 0)] = Ok (VInt 0).
Proof.
  intros st st'.
  split; [vm_compute; reflexivity|].
  split; [vm_compute; reflexivity|].
  split; [vm_compute; reflexivity|].
  apply (get_hwinfo_mem_usage st st'); vm_compute; reflexivity.
Defined.

(** The uptime on the simulated device: 90061 seconds before
    2025-11-03T13:20:00. *)
Lemma get_hwinfo_uptime_epoch_witness :
  let st := Sim.fresh Sim.healthy in
  let st' := snd (get_hwinfo st) in
  get_hwinfo st = (Ok tt, st')
  /\ api_connected (world st') = true
  /\ dict_get "uptimeEpoch" (hwinfo (data st'))
     = Some (VStr "2025-11-02T12:18:59+00:00")
  /\ uptime_text (VInt 90061) = Ok "1 days 01 hours 01 minutes 01 seconds".
Proof.
  intros st st'.
  split; [vm_compute; reflexivity|].
  split; [vm_compute; reflexivity|].
  split; [vm_compute; reflexivity|].
  apply (get_hwinfo_uptime_epoch st st'); vm_compute; reflexivity.
Defined.

(** ** The normaliser *)

Lemma find_app {A} (p : A -> bool) l1 l2 :
  find p (l1 ++ l2)%list
  = match find p l1 with Some x => Some x | None => find p l2 end.
Proof.
  induction l1 as [|a l1 IH]; simpl; auto. destruct (p a); auto.
Qed.

Lemma fill_vals_get_notin row vals out k :
  ~ In k (map f_name vals) ->
  dict_get k (fill_vals row vals out) = dict_get k out.
Proof.
  revert out. induction vals as [|f vals IH]; simpl; intros out N; auto.
  rewrite IH by tauto.
  destruct (field_value row f); auto.
  apply dict_get_set_other. apply String.eqb_neq. intros ->. tauto.
Qed.

Lemma fill_vals_get_in row vals out f :
  NoDup (map f_name vals) -> In f vals ->
  dict_get (f_name f) (fill_vals row vals out)
  = match field_value row f with
    | Some v => Some v
    | None => dict_get (f_name f) out
    end.
Proof.
  revert out. induction vals as [|g vals IH]; simpl; intros out N I; [tauto|].
  inversion N as [|? ? Hg N']; subst.
  destruct I as [->|I].
  - rewrite fill_vals_get_notin by assumption.
    destruct (field_value row f); auto. apply dict_get_set_same.
  - rewrite IH by assumption.
    destruct (field_value row f); auto.
    destruct (field_value row g); auto.
    apply dict_get_set_other. apply String.eqb_neq. intros E.
    apply Hg. rewrite <- E. now apply in_map.
Qed.

Lemma fill_ensure_vals_get_notin old ens out k :
  ~ In k (map f_name ens) ->
  dict_get k (fill_ensure_vals old ens out) = dict_get k out.
Proof.
  revert out. induction ens as [|e ens IH]; simpl; intros out N; auto.
  rewrite IH by tauto.
  assert (String.eqb k (f_name e) = false) as Ne
    by (apply String.eqb_neq; intros ->; tauto).
  destruct old as [o|]; [destruct (dict_get (f_name e) o)|];
    try (now apply dict_get_set_other);
    (destruct (dict_mem (f_name e) out); auto;
     destruct (f_default e); auto; now apply dict_get_set_other).
Qed.

Lemma fill_ensure_vals_carried o ens out k v :
  In k (map f_name ens) -> dict_get k o = Some v ->
  dict_get k (fill_ensure_vals (Some o) ens out) = Some v.
Proof.
  revert out. induction ens as [|e ens IH]; simpl; intros out I G; [tauto|].
  destruct (in_dec string_dec k (map f_name ens)) as [I'|N].
  - now apply IH.
  - destruct I as [E|I]; [|tauto]. subst k.
    rewrite fill_ensure_vals_get_notin by assumption.
    rewrite G. apply dict_get_set_same.
Qed.

Lemma normalize_row_field old vals ens row f :
  NoDup (map f_name vals) -> In f vals -> ~ In (f_name f) (map f_name ens) ->
  dict_get (f_name f) (normalize_row old vals ens row) = field_value row f.
Proof.
  intros N I E. unfold normalize_row.
  rewrite fill_ensure_vals_get_notin by assumption.
  rewrite fill_vals_get_in by assumption.
  now destruct (field_value row f).
Qed.

Lemma normalize_row_carried o vals ens row e v :
  In e ens -> dict_get (f_name e) o = Some v ->
  dict_get (f_name e) (normalize_row (Some o) vals ens row) = Some v.
Proof.
  intros I G. unfold normalize_row.
  apply fill_ensure_vals_carried; auto. now apply in_map.
Qed.

Section KeyedFacts.
Context `{Repr}.
Variables (data : collection) (key : string) (vals ens : list field_spec)
          (skip : list skip_rule).

Lemma place_row_get uid out row :
  dict_get uid (place_row data key vals ens skip out row)
  = if produces key skip uid row
    then Some (normalize_row (dict_get uid data) vals ens row)
    else dict_get uid out.
Proof.
  unfold place_row, produces.
  destruct (skipped skip row); simpl; auto.
  destruct (row_key key row) as [k|]; auto.
  destruct (String.eqb uid k) eqn:E.
  - apply String.eqb_eq in E. subst k. apply dict_get_set_same.
  - now apply dict_get_set_other.
Qed.

Lemma fold_place_row_get uid rows out :
  dict_get uid (fold_left (place_row data key vals ens skip) rows out)
  = match find (produces key skip uid) (rev rows) with
    | Some row => Some (normalize_row (dict_get uid data) vals ens row)
    | None => dict_get uid out
    end.
Proof.
  revert out. induction rows as [|row rows IH]; simpl; intros out; auto.
  rewrite IH, find_app. destruct (find (produces key skip uid) (rev rows)); auto.
  simpl. rewrite place_row_get. now destruct (produces key skip uid row).
Qed.

Lemma fold_place_row_nodup rows out :
  NoDup (dict_keys out) ->
  NoDup (dict_keys (fold_left (place_row data key vals ens skip) rows out)).
Proof.
  revert out. induction rows as [|row rows IH]; simpl; intros out N; auto.
  apply IH. unfold place_row.
  destruct (skipped skip row); auto.
  destruct (row_key key row); auto.
  now apply dict_keys_set_nodup.
Qed.

Lemma last_row_absent source uid :
  truthy source = false -> last_row source key skip uid = None.
Proof.
  unfold last_row.
  destruct source as [| | | | |l|d]; simpl; auto.
  - destruct l; [auto|discriminate].
  - destruct d; [|discriminate]. intros _.
    unfold produces, row_key. simpl. now rewrite andb_false_r.
Qed.

Lemma parse_api_keyed_get source uid :
  dict_get uid (parse_api_keyed data source key vals ens skip)
  = option_map (normalize_row (dict_get uid data) vals ens)
               (last_row source key skip uid).
Proof.
  unfold parse_api_keyed. destruct (truthy source) eqn:T.
  - rewrite fold_place_row_get. unfold last_row.
    now destruct (find (produces key skip uid) (rev (rows_of source))).
  - now rewrite last_row_absent.
Qed.

Lemma last_row_new_keys source uid :
  last_row source key skip uid <> None <-> In uid (new_keys source key skip).
Proof.
  unfold last_row, new_keys.
  rewrite in_flat_map. split.
  - destruct (find (produces key skip uid) (rev (rows_of source))) as [row|] eqn:F;
      [intros _|congruence].
    apply find_some in F as [I P]. apply in_rev in I.
    exists row. split; auto. unfold produces in P.
    destruct (skipped skip row); [discriminate|].
    destruct (row_key key row) as [k|]; [|discriminate].
    simpl in P. apply String.eqb_eq in P. subst. now left.
  - intros (row & I & U) F.
    assert (produces key skip uid row = false) as P
      by (apply (find_none _ _ F row); now apply in_rev in I).
    unfold produces in P. destruct (skipped skip row); [destruct U|].
    destruct (row_key key row) as [k|]; [|destruct U].
    destruct U as [->|[]]. simpl in P. rewrite String.eqb_refl in P.
    discriminate.
Qed.

Lemma parse_api_keyed_keys source uid :
  In uid (dict_keys (parse_api_keyed data source key vals ens skip))
  <-> In uid (new_keys source key skip).
Proof.
  rewrite dict_keys_get, parse_api_keyed_get, <- last_row_new_keys.
  destruct (last_row source key skip uid); simpl; split; congruence.
Qed.

Lemma parse_api_keyed_nodup source :
  NoDup (dict_keys (parse_api_keyed data source key vals ens skip)).
Proof.
  unfold parse_api_keyed. destruct (truthy source).
  - apply fold_place_row_nodup. constructor.
  - constructor.
Qed.
End KeyedFacts.

(** A loop raises when it meets an element on which the body raises, as
    long as the earlier elements keep the reason for it. *)
Lemma for_each_raises {W A} (I : controller W -> Prop) (body : A -> M W unit)
    l1 x l2 :
  (forall y st st', In y l1 -> I st -> body y st = (Ok tt, st') -> I st') ->
  (forall st, I st -> exists e st', body x st = (Raise e, st')) ->
  forall st, I st ->
  exists e st', for_each (l1 ++ x :: l2)%list body st = (Raise e, st').
Proof.
  intros Keep Bad. induction l1 as [|y l1 IH]; simpl; intros st Hst.
  - destruct (Bad st Hst) as (e & st' & E). exists e, st'.
    unfold bind. now rewrite E.
  - unfold bind. destruct (body y st) as [[[]|e] st1] eqn:E.
    + apply IH.
      * intros z s s' Hz. apply Keep. now right.
      * apply (Keep y st st1); auto. now left.
    + eauto.
Qed.

Section KeyedMerge.
Context {W : Type} `{Environment W} `{Repr}.

Lemma get_disk_run (st : controller W) source w :
  api_query "DiskMgmt" "enumerateDevices" [] (world st) = (Ok source, w) ->
  get_disk st
  = (Ok tt,
     with_data
       (with_trace (with_world st w)
          (trace st ++ [EQuery "DiskMgmt" "enumerateDevices" []])%list)
       (with_disk (data st)
          (parse_api_keyed (disk (data st)) source "devicename" disk_vals
             disk_ensure_vals []))).
Proof.
  intros Q. unfold get_disk, bind, gets, query, set_disk, modify.
  rewrite Q. reflexivity.
Qed.

(** C3: for every keyed normalisation, the keys of the result are exactly
    the keys that the new rows produce, whatever the existing data held (keys
    of new rows are added, keys that no row produces are gone); each key has
    one record, built from its last row field by field, and an ensure field
    that the old record of the key already holds keeps the old value.
    [get_disk] stores such a result under the key ["devicename"].  Existing
    keys [A, B, C] and new rows [B, C, D] give exactly [B, C, D]. *)
Theorem parse_api_keyed_merge :
  (forall data source key vals ens skip,
     let result := parse_api_keyed data source key vals ens skip in
     (forall uid, In uid (dict_keys result) <-> In uid (new_keys source key skip))
     /\ NoDup (dict_keys result)
     /\ (forall uid row,
           last_row source key skip uid = Some row ->
           exists r,
             dict_get uid result = Some r
             /\ (forall f,
                   NoDup (map f_name vals) -> In f vals ->
                   ~ In (f_name f) (map f_name ens) ->
                   dict_get (f_name f) r = field_value row f)
             /\ (forall e o v,
                   In e ens -> dict_get uid data = Some o ->
                   dict_get (f_name e) o = Some v ->
                   dict_get (f_name e) r = Some v)))
  /\ (forall (st : controller W) source w,
        api_query "DiskMgmt" "enumerateDevices" [] (world st) = (Ok source, w) ->
        fst (get_disk st) = Ok tt
        /\ forall uid,
             In uid (dict_keys (disk (data (snd (get_disk st)))))
             <-> In uid (new_keys source "devicename" []))
  /\ dict_keys Sim.disks_abc = ["A"; "B"; "C"]
  /\ new_keys Sim.rows_bcd "devicename" [] = ["B"; "C"; "D"]
  /\ dict_keys (parse_api_keyed Sim.disks_abc Sim.rows_bcd "devicename"
                  disk_vals disk_ensure_vals [])
     = ["B"; "C"; "D"]
  /\ obind (dict_item "B" (parse_api_keyed Sim.disks_abc Sim.rows_bcd "devicename"
                             disk_vals disk_ensure_vals []))
           (dict_item "serialnumber")
     = Ok (VStr "WD-B").
Proof.
  split; [|split; [|repeat split; vm_compute; reflexivity]].
  - intros data source key vals ens skip result.
    split; [|split].
    + intros uid. apply parse_api_keyed_keys.
    + apply parse_api_keyed_nodup.
    + intros uid row L. unfold result.
      rewrite parse_api_keyed_get, L. simpl.
      eexists. split; [reflexivity|]. split.
      * intros f N I E. now apply normalize_row_field.
      * intros e o v I -> G. now apply normalize_row_carried.
  - intros st source w Q. rewrite (get_disk_run st source w Q). simpl.
    split; [reflexivity|]. intros uid. apply parse_api_keyed_keys.
Qed.

Lemma fs_to_gib_value_error (st : controller W) uid k r s :
  dict_get uid (fs (data st)) = Some r ->
  dict_get k r = Some (VStr s) ->
  int_of_string s = None ->
  fs_to_gib uid k st = (Raise ValueError, st).
Proof.
  intros G1 G2 N.
  unfold fs_to_gib, fs_item, bind, gets, lift, dict_item.
  rewrite G1, G2. simpl. now rewrite N.
Qed.

Lemma fs_to_gib_other (st st' : controller W) uid k uid' :
  uid <> uid' ->
  fs_to_gib uid k st = (Ok tt, st') ->
  dict_get uid' (fs (data st')) = dict_get uid' (fs (data st)).
Proof.
  intros N E. unfold fs_to_gib, fs_item, fs_assign, set_fs in E.
  run_inv. simpl.
  apply dict_get_set_other. apply String.eqb_neq. congruence.
Qed.

Lemma fs_to_gib_same (st st' : controller W) uid k k' r v :
  k <> k' ->
  fs_to_gib uid k st = (Ok tt, st') ->
  dict_get uid (fs (data st)) = Some r ->
  dict_get k' r = Some v ->
  exists r', dict_get uid (fs (data st')) = Some r' /\ dict_get k' r' = Some v.
Proof.
  intros N E G1 G2. unfold fs_to_gib, fs_item, fs_assign, set_fs in E.
  run_inv. simpl.
  rewrite dict_get_set_same. eexists. split; [reflexivity|].
  rewrite dict_get_set_other by (apply String.eqb_neq; congruence).
  rewrite dict_item_ok in *. congruence.
Qed.

Lemma fs_loop_body_raises (st : controller W) uid k r s :
  k = "size" \/ k = "available" ->
  dict_get uid (fs (data st)) = Some r ->
  dict_get k r = Some (VStr s) ->
  int_of_string s = None ->
  exists e st',
    bind (fs_to_gib uid "size") (fun _ => fs_to_gib uid "available") st
    = (Raise e, st').
Proof.
  intros [->| ->] G1 G2 N.
  - exists ValueError, st. unfold bind.
    now rewrite (fs_to_gib_value_error st uid "size" r s).
  - unfold bind. destruct (fs_to_gib uid "size" st) as [[[]|e] st1] eqn:E.
    + destruct (fs_to_gib_same st st1 uid "size" "available" r (VStr s))
        as (r' & G1' & G2'); auto; [discriminate|].
      exists ValueError, st1.
      now rewrite (fs_to_gib_value_error st1 uid "available" r' s).
    + eauto.
Qed.

Lemma get_fs_loop_raises (st : controller W) uid k r s :
  NoDup (dict_keys (fs (data st))) ->
  k = "size" \/ k = "available" ->
  dict_get uid (fs (data st)) = Some r ->
  dict_get k r = Some (VStr s) ->
  int_of_string s = None ->
  exists e st',
    for_each (dict_keys (fs (data st)))
      (fun uid => fs_to_gib uid "size" ;; fs_to_gib uid "available") st
    = (Raise e, st').
Proof.
  intros N K G1 G2 B.
  assert (In uid (dict_keys (fs (data st)))) as I
    by (apply dict_keys_get; congruence).
  apply in_split in I as (l1 & l2 & E). rewrite E in *.
  apply (for_each_raises (fun s => dict_get uid (fs (data s)) = Some r)).
  - intros y s0 s1 Hy Hs Hr.
    assert (y <> uid) as Ny.
    { intros ->. apply NoDup_remove_2 in N. apply N.
      apply in_or_app. now left. }
    apply bind_ok_inv in Hr as ([] & s2 & R1 & R2).
    rewrite (fs_to_gib_other _ _ _ _ uid Ny R2).
    rewrite (fs_to_gib_other _ _ _ _ uid Ny R1). exact Hs.
  - intros s0 Hs. now apply (fs_loop_body_raises s0 uid k r s).
  - exact G1.
Qed.

(** C10: [get_fs] can raise.  After the normalisation it computes
    [int(..)] of the size and of the available space of every record; a
    record in which one of the two is a string that is not an integer makes
    the method raise.  A row without ["size"] or ["available"] gets the
    default ["unknown"], which is such a string, and the result is a
    [ValueError]; so is a size like ["1.0 GiB"]. *)
Theorem get_fs_raises :
  (forall (st : controller W) source w uid r k s,
     api_query "FileSystemMgmt" "enumerateFilesystems" [] (world st)
     = (Ok source, w) ->
     dict_get uid (parse_api_keyed (fs (data st)) source "uuid" fs_vals [] fs_skip)
     = Some r ->
     k = "size" \/ k = "available" ->
     dict_get k r = Some (VStr s) ->
     int_of_string s = None ->
     exists e, fst (get_fs st) = Raise e)
  /\ (forall old row k,
        k = "size" \/ k = "available" ->
        dict_get k row = None ->
        dict_get k (normalize_row old fs_vals [] row) = Some (VStr "unknown"))
  /\ int_of_string "unknown" = None
  /\ fst (get_fs (Sim.fresh (Sim.with_filesystems
            (VList [Sim.row [("uuid", VStr "1f2e"); ("type", VStr "ext4");
                             ("available", VStr "536870912")]]))))
     = Raise ValueError
  /\ fst (get_fs (Sim.fresh (Sim.with_filesystems
            (VList [Sim.row [("uuid", VStr "1f2e"); ("type", VStr "ext4");
                             ("size", VStr "1073741824")]]))))
     = Raise ValueError
  /\ fst (get_fs (Sim.fresh (Sim.with_filesystems
            (VList [Sim.row [("uuid", VStr "1f2e"); ("type", VStr "ext4");
                             ("size", VStr "1.0 GiB");
                             ("available", VStr "536870912")]]))))
     = Raise ValueError.
Proof.
  split; [|split; [|repeat split; vm_compute; reflexivity]].
  - intros st source w uid r k s Q G K G2 B.
    unfold get_fs, bind at 1, gets. unfold bind at 1, query. rewrite Q.
    unfold bind at 1, set_fs, modify. unfold bind at 1, gets.
    match goal with
    | |- context [for_each _ _ ?s1] =>
        destruct (get_fs_loop_raises s1 uid k r s) as (e & st' & E); auto
    end.
    + simpl. apply parse_api_keyed_nodup.
    + exists e. simpl in *. now rewrite E.
  - intros old row k K G.
    assert (NoDup (map f_name fs_vals)) as N.
    { simpl. repeat (constructor; [simpl; intuition discriminate|]). constructor. }
    destruct K as [-> | ->].
    + pose proof (normalize_row_field old fs_vals [] row
                    (fld_default "size" (VStr "unknown")) N) as P.
      cbn [f_name fld_default] in P. rewrite P by (simpl; tauto).
      unfold field_value. simpl. now rewrite G.
    + pose proof (normalize_row_field old fs_vals [] row
                    (fld_default "available" (VStr "unknown")) N) as P.
      cbn [f_name fld_default] in P. rewrite P by (simpl; tauto).
      unfold field_value. simpl. now rewrite G.
Qed.
End KeyedMerge.

(** The disk [B] of the example keeps the serial number it had. *)
Lemma parse_api_keyed_merge_witness :
  exists r,
    dict_get "B" (parse_api_keyed Sim.disks_abc Sim.rows_bcd "devicename"
                    disk_vals disk_ensure_vals []) = Some r
    /\ dict_get "serialnumber" r = Some (VStr "WD-B").
Proof.
  destruct (proj1 (parse_api_keyed_merge (W := Sim.sim)) Sim.disks_abc
              Sim.rows_bcd "devicename" disk_vals disk_ensure_vals [])
    as (_ & _ & F).
  destruct (F "B" [("devicename", VStr "B"); ("canonicaldevicefile", VStr "/dev/B")]
              eq_refl) as (r & G & _ & C).
  exists r. split; [exact G|].
  destruct (dict_get "B" Sim.disks_abc) as [o|] eqn:O; [|discriminate O].
  apply (C (fld_default "serialnumber" (VStr "unknown")) o (VStr "WD-B")).
  - vm_compute. tauto.
  - reflexivity.
  - vm_compute in O. injection O as <-. reflexivity.
Defined.

(** A filesystem row without a size makes [get_fs] raise. *)
Lemma get_fs_raises_witness :
  exists e,
    fst (get_fs (Sim.fresh (Sim.with_filesystems
           (VList [Sim.row [("uuid", VStr "1f2e"); ("type", VStr "ext4")]]))))
    = Raise e.
Proof.
  eapply (proj1 get_fs_raises _ _ _ "1f2e" _ "size" "unknown").
  - reflexivity.
  - vm_compute. reflexivity.
  - left. reflexivity.
  - reflexivity.
  - reflexivity.
Defined.

(** ** Jobs *)

Lemma control_app a b : control (a ++ b) = (control a ++ control b)%list.
Proof. apply filter_app. Qed.

Section JobFacts.
Context {W : Type} `{Environment W} `{Repr}.
Implicit Types (st : controller W) (cs : list category).

Lemma same_category_refl c d : same_category c d d.
Proof. destruct c; reflexivity. Qed.

Lemma same_category_trans c d1 d2 d3 :
  same_category c d1 d2 -> same_category c d2 d3 -> same_category c d1 d3.
Proof. destruct c; simpl; congruence. Qed.

Lemma step_refl cs st : step cs [] st st.
Proof.
  unfold step. repeat split; auto.
  - intros c _. apply same_category_refl.
  - now rewrite app_nil_r.
Qed.

Lemma step_trans cs e1 e2 st1 st2 st3 :
  step cs e1 st1 st2 -> step cs e2 st2 st3 -> step cs (e1 ++ e2) st1 st3.
Proof.
  intros (A1 & A2 & A4 & A5 & A6 & A7 & A8) (B1 & B2 & B4 & B5 & B6 & B7 & B8).
  unfold step. repeat split; try congruence.
  - intros c Hc. eapply same_category_trans; eauto.
  - now rewrite B8, A8, app_assoc.
Qed.

Lemma step_weaken cs cs' evs st st' :
  (forall c, existsb (category_eqb c) cs = true ->
             existsb (category_eqb c) cs' = true) ->
  step cs evs st st' -> step cs' evs st st'.
Proof.
  intros I (A1 & A2 & A4 & A5 & A6 & A7 & A8).
  unfold step. repeat split; auto.
  intros c Hc. apply A7.
  destruct (existsb (category_eqb c) cs) eqn:E; auto.
  apply I in E. congruence.
Qed.

Lemma step_weaken_l cs cs' evs st st' :
  step cs evs st st' -> step (cs ++ cs') evs st st'.
Proof.
  apply step_weaken. intros c E. rewrite existsb_app, E. reflexivity.
Qed.

Lemma step_weaken_r cs cs' evs st st' :
  step cs' evs st st' -> step (cs ++ cs') evs st st'.
Proof.
  apply step_weaken. intros c E. rewrite existsb_app, E. apply orb_true_r.
Qed.

Lemma job_same {A} cs (m : M W A) :
  (forall st r st', m st = (r, st') -> st' = st) -> job cs m.
Proof.
  intros S st r st' E. rewrite (S _ _ _ E). split; auto.
  exists []. split; [apply step_refl|reflexivity].
Qed.

Lemma job_ret {A} cs (a : A) : job cs (ret (W := W) a).
Proof. apply job_same. intros st r st' E. now apply ret_inv in E. Qed.

Lemma job_lift {A} cs (o : outcome A) : job cs (lift (W := W) o).
Proof. apply job_same. intros st r st' E. now injection E. Qed.

Lemma job_gets {A} cs (f : controller W -> A) : job cs (gets f).
Proof. apply job_same. intros st r st' E. now apply gets_inv in E. Qed.

Lemma job_bind {A B} cs (m : M W A) (k : A -> M W B) :
  job cs m -> (forall a, job cs (k a)) -> job cs (bind m k).
Proof.
  intros Jm Jk st r st' E.
  apply bind_inv in E as [(a & st1 & E1 & E2)|(e & E1 & _)].
  - destruct (Jm _ _ _ E1) as (L1 & q1 & S1 & C1).
    destruct (Jk a _ _ _ E2) as (L2 & q2 & S2 & C2).
    split; [congruence|].
    exists (q1 ++ q2)%list. split; [eapply step_trans; eauto|].
    now rewrite control_app, C1, C2.
  - eapply Jm; eauto.
Qed.

Lemma job_for_each {A} cs (l : list A) (body : A -> M W unit) :
  (forall x, job cs (body x)) -> job cs (for_each l body).
Proof.
  intros J. induction l as [|x l IH]; simpl.
  - apply job_ret.
  - apply job_bind; auto.
Qed.

Lemma job_query cs service_name method params :
  job cs (query service_name method params).
Proof.
  intros st r st' E. unfold query in E.
  destruct (api_query service_name method params (world st)) as [r0 w].
  injection E as _ <-. split; [reflexivity|].
  exists [EQuery service_name method params]. split; [|reflexivity].
  unfold step. simpl. repeat split; auto.
  intros c _. apply same_category_refl.
Qed.

Lemma job_set_data cs (f : snapshot -> snapshot) :
  (forall c d, existsb (category_eqb c) cs = false -> same_category c d (f d)) ->
  job cs (modify (fun st => with_data st (f (data st)))).
Proof.
  intros F st r st' E. apply modify_inv in E as [_ ->].
  split; [reflexivity|]. exists []. split; [|reflexivity].
  unfold step. simpl. repeat split; auto. now rewrite app_nil_r.
Qed.

Lemma job_set_hwinfo cs r :
  existsb (category_eqb CHwinfo) cs = true -> job (W := W) cs (set_hwinfo r).
Proof.
  intros I. apply (job_set_data cs (fun d => with_hwinfo d r)). intros [] d N; try reflexivity. congruence.
Qed.

Lemma job_set_plugin cs c :
  existsb (category_eqb CPlugin) cs = true -> job (W := W) cs (set_plugin c).
Proof.
  intros I. apply (job_set_data cs (fun d => with_plugin d c)). intros [] d N; try reflexivity. congruence.
Qed.

Lemma job_set_disk cs c :
  existsb (category_eqb CDisk) cs = true -> job (W := W) cs (set_disk c).
Proof.
  intros I. apply (job_set_data cs (fun d => with_disk d c)). intros [] d N; try reflexivity. congruence.
Qed.

Lemma job_set_fs cs c :
  existsb (category_eqb CFs) cs = true -> job (W := W) cs (set_fs c).
Proof.
  intros I. apply (job_set_data cs (fun d => with_fs d c)). intros [] d N; try reflexivity. congruence.
Qed.

Lemma job_set_service cs c :
  existsb (category_eqb CService) cs = true -> job (W := W) cs (set_service c).
Proof.
  intros I. apply (job_set_data cs (fun d => with_service d c)). intros [] d N; try reflexivity. congruence.
Qed.

End JobFacts.

(** The job lemmas, applied along the structure of a method. *)
Ltac job_tac :=
  repeat first
    [ apply job_bind; [|intros ?]
    | apply job_ret
    | apply job_lift
    | apply job_gets
    | apply job_query
    | apply job_for_each; intros ?
    | apply job_set_hwinfo; reflexivity
    | apply job_set_plugin; reflexivity
    | apply job_set_disk; reflexivity
    | apply job_set_fs; reflexivity
    | apply job_set_service; reflexivity
    | match goal with
      | |- job _ (if ?b then _ else _) => destruct b
      | |- job _ (match ?x with _ => _ end) => destruct x
      end ].

Section MethodJobs.
Context {W : Type} `{Environment W} `{Repr}.

Lemma job_get_hwinfo : job (W := W) [CHwinfo] get_hwinfo.
Proof.
  unfold get_hwinfo, hwinfo_derive, hwinfo_item, hwinfo_assign, connected.
  job_tac.
Qed.

Lemma job_get_plugin : job (W := W) [CPlugin] get_plugin.
Proof. unfold get_plugin. job_tac. Qed.

Lemma job_get_disk : job (W := W) [CDisk] get_disk.
Proof. unfold get_disk. job_tac. Qed.

Lemma job_get_fs : job (W := W) [CFs] get_fs.
Proof. unfold get_fs, fs_to_gib, fs_item, fs_assign. job_tac. Qed.

Lemma job_get_service : job (W := W) [CService] get_service.
Proof. unfold get_service. job_tac. Qed.

Lemma job_smart_disk uid : job (W := W) [CDisk] (smart_disk uid).
Proof.
  unfold smart_disk, copy_smart_info, copy_smart_attribute, disk_item, disk_assign.
  job_tac.
Qed.

Lemma job_get_smart : job (W := W) [CDisk] get_smart.
Proof.
  unfold get_smart. apply job_bind; [apply job_gets|intros uids].
  apply job_for_each. apply job_smart_disk.
Qed.
End MethodJobs.

(** ** Cycles *)

Section CycleFacts.
Context {W : Type} `{Environment W} `{Repr}.
Implicit Types (st s : controller W) (cs : list category).

Lemma acquire_inv t st r s1 :
  acquire t st = (r, s1) ->
  (exists w, lock_wait t (world st) = (true, w)
             /\ r = Ok true /\ reach [] [ELockAcquired t] st s1)
  \/ (exists w, lock_wait t (world st) = (false, w)
                /\ r = Ok false
                /\ s1 = with_trace (with_world st w)
                          (trace st ++ [ELockTimeout t])%list).
Proof.
  unfold acquire. destruct (lock_wait t (world st)) as [[|] w]; intros E;
    injection E as <- <-; [left|right]; exists w; repeat split; auto.
  exists [ELockAcquired t]. split; [|reflexivity].
  unfold step. simpl. repeat split; auto.
  intros c _. apply same_category_refl.
Qed.

Lemma step_emit cs e s :
  step cs [e] s (with_trace s (trace s ++ [e])%list).
Proof.
  unfold step. simpl. repeat split; auto.
  intros c _. apply same_category_refl.
Qed.

Lemma reach_emit cs sk st s e :
  is_query e = false ->
  reach cs sk st s ->
  reach cs (sk ++ [e]) st (with_trace s (trace s ++ [e])%list).
Proof.
  intros Q (L & evs & S & C). split; [exact L|].
  exists (evs ++ [e])%list. split.
  - eapply step_trans; [exact S|apply step_emit].
  - rewrite control_app, C. unfold control. simpl. now rewrite Q.
Qed.

Lemma reach_run cs cs' sk st s {A} (j : M W A) r s' :
  reach cs sk st s -> job cs' j -> j s = (r, s') ->
  reach (cs ++ cs') sk st s'.
Proof.
  intros (L & evs & S & C) J E.
  destruct (J _ _ _ E) as (L' & qs & S' & C').
  split; [congruence|].
  exists (evs ++ qs)%list. split.
  - eapply step_trans; [apply step_weaken_l; exact S|apply step_weaken_r; exact S'].
  - now rewrite control_app, C, C', app_nil_r.
Qed.

Lemma reach_weaken_nil cs sk st s : reach cs sk st s -> reach (cs ++ []) sk st s.
Proof. now rewrite app_nil_r. Qed.

Lemma reach_job cs cs' sk st s f (j : M W unit) r s' :
  reach cs sk st s -> job cs' j -> executor_job f j s = (r, s') ->
  reach (cs ++ cs') (sk ++ [EJob f]) st s'.
Proof.
  intros R J E.
  change (j (with_trace s (trace s ++ [EJob f])%list) = (r, s')) in E.
  eapply reach_run; [|exact J|exact E].
  now apply reach_emit.
Qed.

Lemma reach_guard cs cs' sk st s f (j : M W unit) r s' :
  reach cs sk st s -> job cs' j -> when_connected f j s = (r, s') ->
  let c := api_connected (world s) in
  reach (cs ++ if c then cs' else []) (sk ++ guard_events f c) st s'
  /\ (c = false -> r = Ok tt /\ world s' = world s).
Proof.
  intros R J E c.
  assert (reach cs (sk ++ [EConnected c]) st
            (with_trace s (trace s ++ [EConnected c])%list)) as R0
    by now apply reach_emit.
  change ((if c then executor_job f j else ret tt)
            (with_trace s (trace s ++ [EConnected c])%list) = (r, s')) in E.
  unfold guard_events. destruct c.
  - split; [|discriminate].
    change (sk ++ [EConnected true; EJob f])%list
      with (sk ++ [EConnected true] ++ [EJob f])%list.
    rewrite app_assoc. eapply reach_job; eauto.
  - apply ret_inv in E as [-> ->]. split; [|auto].
    now apply reach_weaken_nil.
Qed.

Lemma reach_signal cs sk st s r s' :
  reach cs sk st s -> dispatcher_send s = (r, s') ->
  r = Ok tt /\ reach cs (sk ++ [ESignal (signal_update st)]) st s'.
Proof.
  intros R E. unfold dispatcher_send, bind, gets, emit, modify in E.
  injection E as <- <-. split; [reflexivity|].
  assert (signal_update s = signal_update st) as ->.
  { destruct R as (_ & evs & S & _). unfold signal_update.
    now rewrite (proj1 S). }
  now apply reach_emit.
Qed.

Lemma reach_release cs sk st s r s' :
  reach cs sk st s -> release s = (r, s') ->
  r = Ok tt /\ locked s' = false
  /\ exists evs, step cs evs st s' /\ control evs = (sk ++ [ELockReleased])%list.
Proof.
  intros (L & evs & S & C) E. unfold release in E. rewrite L in E.
  injection E as <- <-. repeat split.
  exists (evs ++ [ELockReleased])%list. split.
  - eapply step_trans; [exact S|].
    unfold step. simpl. repeat split; auto.
    intros c _. apply same_category_refl.
  - now rewrite control_app, C.
Qed.

(** Inclusion of one list of categories in another, by cases. *)
Ltac incl_cases :=
  let c := fresh "c" in
  intros c; destruct c; simpl;
  repeat match goal with
  | |- context [if ?b then _ else _] => destruct b; simpl
  end; auto.

Lemma reach_data cs cs' sk st s :
  (forall c, existsb (category_eqb c) cs = true ->
             existsb (category_eqb c) cs' = true) ->
  reach cs sk st s ->
  locked s = true /\ exists evs, step cs' evs st s /\ control evs = sk.
Proof.
  intros I (L & evs & S & C). split; [exact L|].
  exists evs. split; [eapply step_weaken; eauto|exact C].
Qed.

Lemma job_raises_connected cs cs' sk st s f (j : M W unit) e s' :
  reach cs sk st s -> job cs' j -> when_connected f j s = (Raise e, s') ->
  api_connected (world s) = true
  /\ reach (cs ++ cs') (sk ++ guard_events f true) st s'.
Proof.
  intros R J E. destruct (reach_guard _ _ _ _ _ _ _ _ _ R J E) as [R' M].
  destruct (api_connected (world s)); [auto|].
  destruct (M eq_refl). discriminate.
Qed.

Lemma async_update_cycle_runs st r st' :
  async_update_cycle st = (r, st') ->
  (exists w,
     lock_wait 10 (world st) = (false, w) /\ r = Ok tt
     /\ st' = with_trace (with_world st w) (trace st ++ [ELockTimeout 10])%list)
  \/ (exists w c1 c2 c3 evs,
        lock_wait 10 (world st) = (true, w)
        /\ step (slow_categories c1 c2 c3) evs st st'
        /\ (c1 = false -> c2 = false) /\ (c2 = false -> c3 = false)
        /\ ((r = Ok tt
             /\ control evs = slow_shape (signal_update st) c1 c2 c3
             /\ locked st' = false)
            \/ (exists e rest,
                  r = Raise e
                  /\ (control evs ++ rest
                      ++ [ESignal (signal_update st); ELockReleased])%list
                     = slow_shape (signal_update st) c1 c2 c3
                  /\ locked st' = true))).
Proof.
  intros E. unfold async_update_cycle in E.
  apply bind_inv in E as [(ok & s1 & A & E)|(e & A & _)];
    [|apply acquire_inv in A as [(w & _ & A & _)|(w & _ & A & _)]; discriminate].
  apply acquire_inv in A as [(w & L & Hr & R1)|(w & L & Hr & ->)];
    injection Hr as ->; simpl in E.
  2: { left. exists w. apply ret_inv in E as [-> ->]. auto. }
  right. exists w.
  apply bind_inv in E as [([] & s2 & J1 & E)|(e & J1 & ->)].
  2: { pose proof (reach_job _ _ _ _ _ _ _ _ _ R1 job_get_hwinfo J1) as R.
       apply (reach_data _ (slow_categories false false false)) in R
         as (L' & evs & S & C); [|incl_cases].
       exists false, false, false, evs.
       split; [exact L|]. split; [exact S|]. split; [auto|]. split; [auto|].
       right. exists e,
         (guard_events Fs false ++ guard_events Smart false
          ++ guard_events Service false)%list.
       rewrite C. auto. }
  pose proof (reach_job _ _ _ _ _ _ _ _ _ R1 job_get_hwinfo J1) as R2.
  apply bind_inv in E as [([] & s3 & G1 & E)|(e & G1 & ->)].
  2: { destruct (job_raises_connected _ _ _ _ _ _ _ _ _ R2 job_get_fs G1) as [_ R].
       apply (reach_data _ (slow_categories true false false)) in R
         as (L' & evs & S & C); [|incl_cases].
       exists true, false, false, evs.
       split; [exact L|]. split; [exact S|].
       split; [discriminate|]. split; [auto|].
       right. exists e,
         (guard_events Smart false ++ guard_events Service false)%list.
       rewrite C. auto. }
  destruct (reach_guard _ _ _ _ _ _ _ _ _ R2 job_get_fs G1) as [R3 M1].
  set (c1 := api_connected (world s2)) in *.
  assert (c1 = false -> api_connected (world s3) = false) as Mono1.
  { intros F. destruct (M1 F) as [_ Ew]. rewrite Ew. exact F. }
  apply bind_inv in E as [([] & s4 & G2 & E)|(e & G2 & ->)].
  2: { destruct (job_raises_connected _ _ _ _ _ _ _ _ _ R3 job_get_smart G2)
         as [T R].
       apply (reach_data _ (slow_categories c1 true false)) in R
         as (L' & evs & S & C); [|incl_cases].
       exists c1, true, false, evs.
       split; [exact L|]. split; [exact S|].
       split; [intros F; rewrite (Mono1 F) in T; discriminate|].
       split; [discriminate|].
       right. exists e, (guard_events Service false).
       rewrite C. unfold slow_shape. rewrite <- !app_assoc. auto. }
  destruct (reach_guard _ _ _ _ _ _ _ _ _ R3 job_get_smart G2) as [R4 M2].
  set (c2 := api_connected (world s3)) in *.
  assert (c2 = false -> api_connected (world s4) = false) as Mono2.
  { intros F. destruct (M2 F) as [_ Ew]. rewrite Ew. exact F. }
  apply bind_inv in E as [([] & s5 & G3 & E)|(e & G3 & ->)].
  2: { destruct (job_raises_connected _ _ _ _ _ _ _ _ _ R4 job_get_service G3)
         as [T R].
       apply (reach_data _ (slow_categories c1 c2 true)) in R
         as (L' & evs & S & C); [|incl_cases].
       exists c1, c2, true, evs.
       split; [exact L|]. split; [exact S|].
       split; [exact Mono1|].
       split; [intros F; rewrite (Mono2 F) in T; discriminate|].
       right. exists e, [].
       rewrite C. unfold slow_shape. rewrite <- !app_assoc. auto. }
  destruct (reach_guard _ _ _ _ _ _ _ _ _ R4 job_get_service G3) as [R5 M3].
  set (c3 := api_connected (world s4)) in *.
  apply bind_inv in E as [([] & s6 & D & E)|(e & D & ->)];
    [|destruct (reach_signal _ _ _ _ _ _ R5 D); discriminate].
  destruct (reach_signal _ _ _ _ _ _ R5 D) as [_ R6].
  destruct (reach_release _ _ _ _ _ _ R6 E) as (-> & Lf & evs & S & C).
  exists c1, c2, c3, evs.
  split; [exact L|]. split; [eapply step_weaken; [|exact S]; incl_cases|].
  split; [exact Mono1|]. split; [exact Mono2|].
  left. split; [reflexivity|]. split; [|exact Lf].
  rewrite C. unfold slow_shape. rewrite <- !app_assoc. reflexivity.
Qed.

Lemma async_hwinfo_update_runs st r st' :
  async_hwinfo_update st = (r, st') ->
  (exists w,
     lock_wait 30 (world st) = (false, w) /\ r = Ok tt
     /\ st' = with_trace (with_world st w) (trace st ++ [ELockTimeout 30])%list)
  \/ (exists w c1 c2 evs,
        lock_wait 30 (world st) = (true, w)
        /\ step (fast_categories c1 c2) evs st st'
        /\ (c1 = false -> c2 = false)
        /\ ((r = Ok tt
             /\ control evs = fast_shape c1 c2
             /\ locked st' = false)
            \/ (exists e rest,
                  r = Raise e
                  /\ (control evs ++ rest ++ [ELockReleased])%list
                     = fast_shape c1 c2
                  /\ locked st' = true))).
Proof.
  intros E. unfold async_hwinfo_update in E.
  apply bind_inv in E as [(ok & s1 & A & E)|(e & A & _)];
    [|apply acquire_inv in A as [(w & _ & A & _)|(w & _ & A & _)]; discriminate].
  apply acquire_inv in A as [(w & L & Hr & R1)|(w & L & Hr & ->)];
    injection Hr as ->; simpl in E.
  2: { left. exists w. apply ret_inv in E as [-> ->]. auto. }
  right. exists w.
  apply bind_inv in E as [([] & s2 & J1 & E)|(e & J1 & ->)].
  2: { pose proof (reach_job _ _ _ _ _ _ _ _ _ R1 job_get_hwinfo J1) as R.
       apply (reach_data _ (fast_categories false false)) in R
         as (L' & evs & S & C); [|incl_cases].
       exists false, false, evs.
       split; [exact L|]. split; [exact S|]. split; [auto|].
       right. exists e, (guard_events Plugin false ++ guard_events Disk false)%list.
       rewrite C. auto. }
  pose proof (reach_job _ _ _ _ _ _ _ _ _ R1 job_get_hwinfo J1) as R2.
  apply bind_inv in E as [([] & s3 & G1 & E)|(e & G1 & ->)].
  2: { destruct (job_raises_connected _ _ _ _ _ _ _ _ _ R2 job_get_plugin G1)
         as [_ R].
       apply (reach_data _ (fast_categories true false)) in R
         as (L' & evs & S & C); [|incl_cases].
       exists true, false, evs.
       split; [exact L|]. split; [exact S|]. split; [discriminate|].
       right. exists e, (guard_events Disk false).
       rewrite C. auto. }
  destruct (reach_guard _ _ _ _ _ _ _ _ _ R2 job_get_plugin G1) as [R3 M1].
  set (c1 := api_connected (world s2)) in *.
  assert (c1 = false -> api_connected (world s3) = false) as Mono1.
  { intros F. destruct (M1 F) as [_ Ew]. rewrite Ew. exact F. }
  apply bind_inv in E as [([] & s4 & G2 & E)|(e & G2 & ->)].
  2: { destruct (job_raises_connected _ _ _ _ _ _ _ _ _ R3 job_get_disk G2)
         as [T R].
       apply (reach_data _ (fast_categories c1 true)) in R
         as (L' & evs & S & C); [|incl_cases].
       exists c1, true, evs.
       split; [exact L|]. split; [exact S|].
       split; [intros F; rewrite (Mono1 F) in T; discriminate|].
       right. exists e, [].
       rewrite C. unfold fast_shape. rewrite <- !app_assoc. auto. }
  destruct (reach_guard _ _ _ _ _ _ _ _ _ R3 job_get_disk G2) as [R4 M2].
  set (c2 := api_connected (world s3)) in *.
  destruct (reach_release _ _ _ _ _ _ R4 E) as (-> & Lf & evs & S & C).
  exists c1, c2, evs.
  split; [exact L|]. split; [eapply step_weaken; [|exact S]; incl_cases|].
  split; [exact Mono1|].
  left. split; [reflexivity|]. split; [|exact Lf].
  rewrite C. unfold fast_shape. rewrite <- !app_assoc. reflexivity.
Qed.
End CycleFacts.


(** ** Traces *)

Lemma signals_app a b : signals (a ++ b) = (signals a + signals b)%nat.
Proof. unfold signals. now rewrite filter_app, length_app. Qed.

Lemma signals_control evs : signals (control evs) = signals evs.
Proof.
  unfold signals, control. induction evs as [|e evs IH]; simpl; auto.
  destruct e; simpl; auto.
Qed.

Lemma in_control x evs :
  is_query x = false -> In x (control evs) <-> In x evs.
Proof.
  intros Q. unfold control. rewrite filter_In. rewrite Q. simpl. tauto.
Qed.

Lemma signals_under_lock_control h evs :
  signals_under_lock h (control evs) = signals_under_lock h evs.
Proof.
  revert h. unfold control.
  induction evs as [|e evs IH]; simpl; intros h; auto.
  destruct e; simpl; auto. now rewrite IH.
Qed.

Lemma signals_under_lock_app h a b :
  signals_under_lock h (a ++ b)
  = signals_under_lock h a && signals_under_lock (lock_after h a) b.
Proof.
  revert h. induction a as [|e a IH]; simpl; intros h; auto.
  destruct e; auto. rewrite IH. now rewrite andb_assoc.
Qed.

Lemma signals_under_lock_none h evs :
  signals evs = 0%nat -> signals_under_lock h evs = true.
Proof.
  revert h. unfold signals.
  induction evs as [|e evs IH]; simpl; intros h Z; auto.
  destruct e; simpl in *; auto. discriminate.
Qed.

Lemma signals_fast_shape c1 c2 : signals (fast_shape c1 c2) = 0%nat.
Proof. now destruct c1, c2. Qed.

Lemma signals_slow_shape s c1 c2 c3 : signals (slow_shape s c1 c2 c3) = 1%nat.
Proof. now destruct c1, c2, c3. Qed.

Lemma signals_prefix a b : signals (a ++ b) = 0%nat -> signals a = 0%nat.
Proof. rewrite signals_app. lia. Qed.

Section CycleSummaries.
Context {W : Type} `{Environment W} `{Repr}.
Implicit Types (st : controller W).

Lemma step_trace cs evs st st' : step cs evs st st' -> trace st' = (trace st ++ evs)%list.
Proof. intros S. apply S. Qed.

Lemma step_name cs evs st st' : step cs evs st st' -> name st' = name st.
Proof. intros S. apply S. Qed.

Lemma not_in_fast_shape x c1 c2 :
  x = ELockAcquired 10 \/ x = ELockTimeout 10 -> ~ In x (fast_shape c1 c2).
Proof.
  intros [-> | ->]; destruct c1, c2; simpl; intuition discriminate.
Qed.

Lemma not_timeout_in_slow_shape s c1 c2 c3 :
  ~ In (ELockTimeout 10) (slow_shape s c1 c2 c3).
Proof. destruct c1, c2, c3; simpl; intuition discriminate. Qed.

Lemma fast_facts st r st' :
  async_hwinfo_update st = (r, st') ->
  exists evs,
    trace st' = (trace st ++ evs)%list
    /\ name st' = name st
    /\ signals evs = 0%nat
    /\ ~ In (ELockAcquired 10) evs
    /\ ~ In (ELockTimeout 10) evs
    /\ (r = Ok tt -> locked st = false -> locked st' = false)
    /\ (forall e, r = Raise e -> locked st' = true).
Proof.
  intros E.
  apply async_hwinfo_update_runs in E
    as [(w & L & -> & ->)
       |(w & c1 & c2 & evs & L & S & _
         & [(-> & C & Lf)|(e & rest & -> & C & Lf)])].
  - exists [ELockTimeout 30]. simpl.
    repeat split; auto; try (intros [?|[]]; discriminate). discriminate.
  - exists evs. split; [eapply step_trace; eauto|].
    split; [eapply step_name; eauto|].
    rewrite <- signals_control, C.
    split; [apply signals_fast_shape|].
    split; [|split; [|split; [auto|discriminate]]];
      rewrite <- in_control, C by reflexivity; apply not_in_fast_shape; auto.
  - exists evs. split; [eapply step_trace; eauto|].
    split; [eapply step_name; eauto|].
    assert (forall x, In x (control evs) -> In x (fast_shape c1 c2)) as Sub.
    { intros x I. rewrite <- C. apply in_or_app. now left. }
    split.
    { rewrite <- signals_control. apply (signals_prefix _ (rest ++ [ELockReleased])).
      rewrite C. apply signals_fast_shape. }
    split; [|split; [|split; [discriminate|intros e0 _; exact Lf]]];
      rewrite <- in_control by reflexivity; intros I; apply Sub in I;
      revert I; apply not_in_fast_shape; auto.
Qed.

Lemma slow_shape_tail s c1 c2 c3 :
  exists pre,
    slow_shape s c1 c2 c3 = (pre ++ [ESignal s; ELockReleased])%list
    /\ signals pre = 0%nat.
Proof.
  exists ([ELockAcquired 10; EJob Hwinfo] ++ guard_events Fs c1
          ++ guard_events Smart c2 ++ guard_events Service c3)%list.
  split.
  - unfold slow_shape. now rewrite <- !app_assoc.
  - now destruct c1, c2, c3.
Qed.

Lemma slow_facts st r st' :
  async_update_cycle st = (r, st') ->
  exists evs,
    trace st' = (trace st ++ evs)%list
    /\ name st' = name st
    /\ (r = Ok tt -> In (ELockAcquired 10) evs ->
        signals evs = 1%nat /\ locked st' = false
        /\ exists pre,
             control evs = (pre ++ [ESignal (signal_update st); ELockReleased])%list
             /\ signals pre = 0%nat)
    /\ (forall e, r = Raise e -> signals evs = 0%nat /\ locked st' = true)
    /\ (In (ELockTimeout 10) evs ->
        r = Ok tt /\ signals evs = 0%nat /\ locked st' = locked st)
    /\ (r = Ok tt -> In (ELockAcquired 10) evs \/ In (ELockTimeout 10) evs)
    /\ (forall h, signals_under_lock h evs = true).
Proof.
  intros E.
  apply async_update_cycle_runs in E
    as [(w & L & -> & ->)
       |(w & c1 & c2 & c3 & evs & L & S & _ & _
         & [(-> & C & Lf)|(e & rest & -> & C & Lf)])].
  - exists [ELockTimeout 10]. simpl.
    split; [reflexivity|]. split; [reflexivity|].
    split; [intros _ [?|[]]; discriminate|].
    split; [discriminate|]. split; [auto|]. split; [auto|]. reflexivity.
  - exists evs. split; [eapply step_trace; eauto|].
    split; [eapply step_name; eauto|].
    assert (signals evs = 1%nat) as Sg
      by (rewrite <- signals_control, C; apply signals_slow_shape).
    split.
    { intros _ _. split; [exact Sg|]. split; [exact Lf|].
      rewrite C. apply slow_shape_tail. }
    split; [discriminate|].
    split.
    { rewrite <- in_control, C by reflexivity. intros I.
      now apply not_timeout_in_slow_shape in I. }
    split.
    { intros _. left. rewrite <- in_control, C by reflexivity.
      unfold slow_shape. simpl. auto. }
    intros h. rewrite <- signals_under_lock_control, C.
    destruct c1, c2, c3; reflexivity.
  - exists evs. split; [eapply step_trace; eauto|].
    split; [eapply step_name; eauto|].
    assert (signals evs = 0%nat) as Sg.
    { rewrite <- signals_control.
      destruct (slow_shape_tail (signal_update st) c1 c2 c3) as (pre & Ep & Zp).
      rewrite Ep, app_assoc in C. apply app_inv_tail in C.
      apply (signals_prefix _ rest). now rewrite C. }
    split; [discriminate|].
    split; [intros e0 _; auto|].
    split.
    { rewrite <- in_control by reflexivity. intros I.
      exfalso. apply (not_timeout_in_slow_shape (signal_update st) c1 c2 c3).
      rewrite <- C. apply in_or_app. now left. }
    split; [discriminate|].
    intros h. now apply signals_under_lock_none.
Qed.
End CycleSummaries.


Section UpdateFacts.
Context {W : Type} `{Environment W} `{Repr}.
Implicit Types (st : controller W).

(** The state in which [async_update] goes on after the test for a
    reconnection. *)
Lemma async_update_runs st r st' :
  async_update st = (r, st') ->
  exists rc w0,
    api_has_reconnected (world st) = (rc, w0)
    /\ let st0 := with_trace (with_world st w0)
                    (trace st ++ [EReconnected rc])%list in
       (rc = false /\ async_update_cycle st0 = (r, st'))
       \/ (rc = true
           /\ exists r1 st1,
                async_hwinfo_update st0 = (r1, st1)
                /\ ((r1 = Ok tt /\ async_update_cycle st1 = (r, st'))
                    \/ (exists e, r1 = Raise e /\ r = Raise e /\ st' = st1))).
Proof.
  unfold async_update, has_reconnected. intros E.
  unfold bind at 1 in E.
  destruct (api_has_reconnected (world st)) as [rc w0].
  exists rc, w0. split; [reflexivity|]. simpl.
  destruct rc.
  - right. split; [reflexivity|].
    apply bind_inv in E as [([] & st1 & E1 & E2)|(e & E1 & ->)]; eauto 10.
  - left. split; [reflexivity|]. exact E.
Qed.

Lemma update_facts st r st' :
  async_update st = (r, st') ->
  exists evs,
    trace st' = (trace st ++ evs)%list
    /\ (r = Ok tt -> In (ELockAcquired 10) evs ->
        signals evs = 1%nat /\ locked st' = false
        /\ exists pre,
             control evs = (pre ++ [ESignal (signal_update st); ELockReleased])%list
             /\ signals pre = 0%nat)
    /\ (forall e, r = Raise e -> signals evs = 0%nat /\ locked st' = true)
    /\ (In (ELockTimeout 10) evs -> r = Ok tt /\ signals evs = 0%nat)
    /\ (r = Ok tt -> In (ELockAcquired 10) evs \/ In (ELockTimeout 10) evs)
    /\ (forall h, signals_under_lock h evs = true)
    /\ (r = Ok tt -> locked st = false -> locked st' = false).
Proof.
  intros E.
  apply async_update_runs in E as (rc & w0 & Q & [[-> E]|(-> & r1 & st1 & F & E)]).
  - (* no reconnection *)
    apply slow_facts in E as (evs & T & N & A & B & C & D & U).
    simpl in T, N.
    exists (EReconnected false :: evs). rewrite T, <- app_assoc.
    split; [reflexivity|].
    assert (forall x, x = ELockAcquired 10 \/ x = ELockTimeout 10 ->
                      In x (EReconnected false :: evs) -> In x evs) as Sub
      by (intros x [-> | ->] [?|?]; auto; discriminate).
    split.
    { intros Hr I. apply Sub in I; auto.
      destruct (A Hr I) as (Sg & Lf & pre & Cp & Zp).
      split; [exact Sg|]. split; [exact Lf|].
      exists (EReconnected false :: pre). split; [|exact Zp].
      unfold control in *. simpl. now rewrite Cp. }
    split; [exact B|].
    split; [intros I; apply Sub in I; auto; destruct (C I) as (? & ? & ?); auto|].
    split; [intros Hr; destruct (D Hr); [left|right]; now right|].
    split; [intros h; apply U|].
    intros Hr L. destruct (D Hr) as [I|I].
    + now destruct (A Hr I) as (_ & Lf & _).
    + destruct (C I) as (_ & _ & Lf). now rewrite Lf.
  - (* a reconnection: the fast cycle runs first *)
    apply fast_facts in F as (fe & T1 & N1 & Z1 & NA & NT & L1 & X1).
    simpl in T1, N1.
    destruct E as [[-> E]|(e & -> & -> & ->)].
    + apply slow_facts in E as (evs & T & N & A & B & C & D & U).
      exists (EReconnected true :: fe ++ evs)%list.
      split; [rewrite T, T1, <- !app_assoc; reflexivity|].
      assert (forall x, x = ELockAcquired 10 \/ x = ELockTimeout 10 ->
                        In x (EReconnected true :: fe ++ evs)%list -> In x evs)
        as Sub.
      { intros x Hx [?|I]; [destruct Hx; subst; discriminate|].
        apply in_app_or in I as [I|I]; auto.
        destruct Hx; subst; contradiction. }
      assert (signals (EReconnected true :: fe ++ evs)%list = signals evs) as Sg
        by (change (EReconnected true :: fe ++ evs)%list
              with ([EReconnected true] ++ fe ++ evs)%list;
            rewrite !signals_app, Z1; reflexivity).
      assert (signal_update st1 = signal_update st) as Su
        by (unfold signal_update; now rewrite N1).
      rewrite Sg.
      split.
      { intros Hr I. apply Sub in I; auto.
        destruct (A Hr I) as (Sg' & Lf & pre & Cp & Zp).
        split; [exact Sg'|]. split; [exact Lf|].
        exists (EReconnected true :: control fe ++ pre)%list. split.
        - change (EReconnected true :: fe ++ evs)%list
            with ([EReconnected true] ++ fe ++ evs)%list.
          rewrite !control_app, Cp, Su. simpl. now rewrite <- app_assoc.
        - change (EReconnected true :: control fe ++ pre)%list
            with ([EReconnected true] ++ control fe ++ pre)%list.
          rewrite !signals_app, signals_control, Z1, Zp. reflexivity. }
      split; [exact B|].
      split; [intros I; apply Sub in I; auto; destruct (C I) as (? & ? & ?); auto|].
      split.
      { intros Hr. destruct (D Hr); [left|right]; right; apply in_or_app; now right. }
      split.
      { intros h. simpl. rewrite signals_under_lock_app, U, andb_true_r.
        now apply signals_under_lock_none. }
      intros Hr L. destruct (D Hr) as [I|I].
      * now destruct (A Hr I) as (_ & Lf & _).
      * destruct (C I) as (_ & _ & Lf). rewrite Lf. now apply L1.
    + exists (EReconnected true :: fe).
      split; [rewrite T1, <- app_assoc; reflexivity|].
      assert (signals (EReconnected true :: fe) = 0%nat) as Sg
        by (change (EReconnected true :: fe) with ([EReconnected true] ++ fe)%list;
            rewrite signals_app, Z1; reflexivity).
      split; [discriminate|].
      split; [intros e0 _; split; [exact Sg|now apply (X1 e)]|].
      split; [intros [?|I]; [discriminate|contradiction]|].
      split; [discriminate|].
      split; [intros h; now apply signals_under_lock_none|discriminate].
Qed.
End UpdateFacts.


Section CycleTheorems.
Context {W : Type} `{Environment W} `{Repr}.
Implicit Types (st : controller W).

(** C1: a slow cycle that obtains the lock and completes sends the change
    notification exactly once; the notification is the last event but one of
    the run, sent while the lock is still held, and the release of the lock
    follows it at once.  A run in which a job raises sends none, a run whose
    wait for the lock times out sends none, and a fast cycle never sends
    one. *)
Theorem notification_once_under_lock :
  (forall st r st',
     async_update st = (r, st') ->
     exists evs,
       trace st' = (trace st ++ evs)%list
       /\ (r = Ok tt -> In (ELockAcquired 10) evs ->
           signals evs = 1%nat
           /\ exists pre,
                control evs
                = (pre ++ [ESignal (signal_update st); ELockReleased])%list
                /\ signals pre = 0%nat)
       /\ (forall e, r = Raise e -> signals evs = 0%nat)
       /\ (In (ELockTimeout 10) evs -> signals evs = 0%nat)
       /\ (r = Ok tt -> In (ELockAcquired 10) evs \/ In (ELockTimeout 10) evs)
       /\ signals_under_lock false evs = true)
  /\ (forall st r st',
        async_hwinfo_update st = (r, st') ->
        exists evs, trace st' = (trace st ++ evs)%list /\ signals evs = 0%nat).
Proof.
  split.
  - intros st r st' E.
    apply update_facts in E as (evs & T & A & B & C & D & U & _).
    exists evs. split; [exact T|].
    split; [intros Hr I; destruct (A Hr I) as (? & _ & ?); auto|].
    split; [intros e He; now destruct (B e He)|].
    split; [intros I; now destruct (C I)|].
    split; [exact D|apply U].
  - intros st r st' E.
    apply fast_facts in E as (evs & T & _ & Z & _). eauto.
Qed.

(** C2: a cycle that starts without the lock and returns normally does not
    hold the lock when it returns (it released it, or it never obtained it);
    when one of its jobs raises, the exception leaves the cycle and the lock
    is still held. *)
Theorem lock_released_unless_job_raises st r st' :
  locked st = false ->
  async_hwinfo_update st = (r, st') \/ async_update st = (r, st') ->
  (r = Ok tt -> locked st' = false)
  /\ (forall e, r = Raise e -> locked st' = true).
Proof.
  intros L [E|E].
  - apply fast_facts in E as (evs & _ & _ & _ & _ & _ & A & B). auto.
  - apply update_facts in E as (evs & _ & _ & B & _ & _ & _ & A).
    split; [auto|]. intros e He. now destruct (B e He).
Qed.

(** C5: when the wait for the lock times out (30 seconds in the fast
    cycle, 10 seconds in the slow one) the cycle returns at once and
    normally: the snapshot is as it was, the only new event is the timeout,
    no notification is sent.  For [async_update] as a whole: without a
    reconnection nothing else happens, and in every run in which the wait of
    10 seconds times out the result is normal and no notification is sent. *)
Theorem lock_timeout_abandons :
  (forall st w,
     lock_wait 30 (world st) = (false, w) ->
     exists st',
       async_hwinfo_update st = (Ok tt, st')
       /\ data st' = data st /\ locked st' = locked st
       /\ trace st' = (trace st ++ [ELockTimeout 30])%list)
  /\ (forall st w,
        lock_wait 10 (world st) = (false, w) ->
        exists st',
          async_update_cycle st = (Ok tt, st')
          /\ data st' = data st /\ locked st' = locked st
          /\ trace st' = (trace st ++ [ELockTimeout 10])%list)
  /\ (forall st w0 w,
        api_has_reconnected (world st) = (false, w0) ->
        lock_wait 10 w0 = (false, w) ->
        exists st',
          async_update st = (Ok tt, st')
          /\ data st' = data st /\ locked st' = locked st
          /\ trace st' = (trace st ++ [EReconnected false; ELockTimeout 10])%list)
  /\ (forall st r st' evs,
        async_update st = (r, st') ->
        trace st' = (trace st ++ evs)%list ->
        In (ELockTimeout 10) evs ->
        r = Ok tt /\ signals evs = 0%nat).
Proof.
  split; [|split; [|split]].
  - intros st w L. eexists.
    unfold async_hwinfo_update, bind, acquire. rewrite L. simpl.
    split; [reflexivity|]. auto.
  - intros st w L. eexists.
    unfold async_update_cycle, bind, acquire. rewrite L. simpl.
    split; [reflexivity|]. auto.
  - intros st w0 w Q L. eexists.
    unfold async_update, bind at 1, has_reconnected. rewrite Q.
    unfold bind at 1, ret.
    unfold async_update_cycle, bind, acquire. simpl. rewrite L. simpl.
    split; [reflexivity|]. simpl. rewrite <- app_assoc. auto.
  - intros st r st' evs E T I.
    apply update_facts in E as (evs' & T' & _ & _ & C & _).
    rewrite T' in T. apply app_inv_head in T. subst evs'. auto.
Qed.


End CycleTheorems.


(** ** Reset *)

Section ResetFacts.
Context {W : Type}.
Implicit Types (st : controller W).

Lemma for_each_unsubscribe ls st :
  for_each ls (fun h => emit (EUnsubscribe h)) st
  = (Ok tt, with_trace st (trace st ++ map EUnsubscribe ls)%list).
Proof.
  revert st. induction ls as [|h ls IH]; intros st.
  - simpl. rewrite app_nil_r. now destruct st.
  - simpl. unfold bind, emit, modify. rewrite IH. simpl.
    now rewrite <- app_assoc.
Qed.

(** C9: [async_reset] calls every registered listener (an unsubscribe
    callable) in order, empties the list of listeners and returns [True],
    for every controller; the interval timers that [async_init] registered
    and their stored handles are left as they are. *)
Theorem async_reset_listeners st :
  exists st',
    async_reset st = (Ok true, st')
    /\ listeners st' = []
    /\ trace st' = (trace st ++ map EUnsubscribe (listeners st))%list
    /\ hass_timers st' = hass_timers st
    /\ force_update_callback st' = force_update_callback st
    /\ force_hwinfo_update_callback st' = force_hwinfo_update_callback st
    /\ data st' = data st /\ locked st' = locked st /\ world st' = world st.
Proof.
  eexists. unfold async_reset, bind at 1, gets. unfold bind at 1.
  rewrite for_each_unsubscribe. unfold bind, modify, ret. simpl.
  split; [reflexivity|]. simpl. repeat split.
Qed.
End ResetFacts.

(** ** SMART details *)

Section SilentFacts.
Context {W : Type}.







End SilentFacts.


Section SmartFacts.
Context {W : Type} `{Environment W} `{Repr}.
Implicit Types (st : controller W).














End SmartFacts.

Section SmartTheorem.
Context {W : Type} `{Environment W} `{Repr}.
Implicit Types (st : controller W).

End SmartTheorem.

(** ** The properties on the simulated device *)

(** On the healthy device the notification of a slow cycle comes before the
    release of the lock, not after it. *)
Lemma notification_precedes_release :
  let run := async_update (Sim.fresh Sim.healthy) in
  fst run = Ok tt
  /\ control (trace (snd run))
     = [EReconnected false; ELockAcquired 10; EJob Hwinfo; EConnected true;
        EJob Fs; EConnected true; EJob Smart; EConnected true; EJob Service;
        ESignal "openmediavault-update-nas"; ELockReleased]
  /\ signals (trace (snd run)) = 1%nat
  /\ signals_after_release false (trace (snd run)) = false.
Proof. vm_compute. repeat split. Qed.

Lemma notification_once_under_lock_witness :
  let st := Sim.fresh Sim.healthy in
  let st' := snd (async_update st) in
  async_update st = (Ok tt, st')
  /\ exists evs,
       trace st' = (trace st ++ evs)%list
       /\ signals evs = 1%nat
       /\ signals_under_lock false evs = true.
Proof.
  intros st st'.
  assert (async_update st = (Ok tt, st')) as E by (vm_compute; reflexivity).
  split; [exact E|].
  destruct (proj1 notification_once_under_lock st (Ok tt) st' E)
    as (evs & T & _ & _ & _ & _ & U).
  exists evs. split; [exact T|]. split; [|exact U].
  change (trace st' = evs) in T. rewrite <- T. vm_compute. reflexivity.
Defined.

(** A job that raises leaves the lock held: the transport raising in the
    last job of the slow cycle, a filesystem without a size in the slow
    cycle, a missing version in the fast cycle. *)
Lemma lock_held_after_failure :
  let transport := async_update (Sim.fresh Sim.failing_services) in
  let slow := async_update (Sim.fresh (Sim.with_filesystems
                (VList [Sim.row [("uuid", VStr "1f2e"); ("type", VStr "ext4")]]))) in
  let fast := async_hwinfo_update (Sim.fresh (Sim.with_information
                (Sim.row [("hostname", VStr "nas")]))) in
  fst transport = Raise (ApiError "connection reset")
  /\ locked (snd transport) = true
  /\ signals (trace (snd transport)) = 0%nat
  /\ fst slow = Raise ValueError /\ locked (snd slow) = true
  /\ fst fast = Raise ValueError /\ locked (snd fast) = true.
Proof. vm_compute. repeat split. Qed.

Lemma lock_released_unless_job_raises_witness :
  let st := Sim.fresh Sim.healthy in
  let st' := snd (async_update st) in
  locked st = false
  /\ async_update st = (Ok tt, st')
  /\ locked st' = false.
Proof.
  intros st st'.
  assert (async_update st = (Ok tt, st')) as E by (vm_compute; reflexivity).
  split; [reflexivity|]. split; [exact E|].
  apply (lock_released_unless_job_raises st (Ok tt) st' eq_refl (or_intror E)).
  reflexivity.
Defined.

Lemma lock_timeout_abandons_witness :
  let st := Sim.fresh Sim.busy in
  lock_wait 30 (world st) = (false, Sim.healthy)
  /\ exists st',
       async_hwinfo_update st = (Ok tt, st')
       /\ data st' = data st /\ locked st' = locked st
       /\ trace st' = (trace st ++ [ELockTimeout 30])%list.
Proof.
  intros st. split; [reflexivity|].
  apply (proj1 lock_timeout_abandons st Sim.healthy). reflexivity.
Defined.




(** After [async_init] and two subscriptions, [async_reset] returns [True]
    and calls the two listeners, and both timers are still registered. *)
Lemma async_reset_keeps_timers :
  let st := with_listeners (snd (async_init (Sim.fresh Sim.healthy))) [1; 2]%nat in
  let run := async_reset st in
  hass_timers st = [mkTimer ForceUpdate 60; mkTimer ForceHwinfoUpdate 3600]
  /\ fst run = Ok true
  /\ trace (snd run) = [EUnsubscribe 1; EUnsubscribe 2]
  /\ hass_timers (snd run)
     = [mkTimer ForceUpdate 60; mkTimer ForceHwinfoUpdate 3600]
  /\ force_update_callback (snd run) = Some 0%nat
  /\ force_hwinfo_update_callback (snd run) = Some 1%nat.
Proof. vm_compute. repeat split. Qed.
